(** * EdDSA-Poseidon over Baby Jubjub: a shallow embedding of
      [packages/eddsa-poseidon/src/eddsa-poseidon.ts]

    The source file holds two variants of the same module: an older one whose
    helpers live in local modules ([./babyjub], [./field], [./scalar],
    [./utils]) and a newer one bound to [@zk-kit/baby-jubjub] and
    [@zk-kit/utils].  Both are embedded below ([Module V1], [Module V2]) over
    one record of library operations. *)

From Stdlib Require Import ZArith Lia Bool List String Ascii.
From Stdlib Require Import Strings.Byte.
From Stdlib Require Import DecimalString DecimalZ.
From stdpp Require Import base option list.

Local Open Scope Z_scope.

(** ** JavaScript values used by the module *)

(** [Buffer]: a sequence of bytes. *)
Abbreviation Buffer := (list byte).

Definition byte_to_Z (b : byte) : Z := Z.of_N (Byte.to_N b).

(** Storing a number into a [Uint8Array] slot keeps its low eight bits. *)
Definition byte_of_Z (z : Z) : byte :=
  match Byte.of_N (Z.to_N (z mod 256)) with
  | Some b => b
  | None => x00
  end.

(** [buf.slice(lo, hi)] for [0 <= lo <= hi]; both ends are clamped to the
    buffer. *)
Definition slice (lo hi : nat) (buf : Buffer) : Buffer :=
  take (hi - lo) (drop lo buf).

(** Errors a call can raise. *)
Inductive Exn :=
| JsError (msg : string)
| JsTypeError (msg : string)
| JsSyntaxError (msg : string).

(** Outcome of a call that returns a value or raises. *)
Inductive Outcome (A : Type) :=
| Ok (a : A)
| Throw (e : Exn).
Arguments Ok {A} a.
Arguments Throw {A} e.

#[global] Instance Outcome_ret : MRet Outcome := fun _ a => Ok a.
#[global] Instance Outcome_bind : MBind Outcome := fun _ _ f m =>
  match m with
  | Ok a => f a
  | Throw e => Throw e
  end.
#[global] Instance Outcome_fmap : FMap Outcome := fun _ _ f m =>
  match m with
  | Ok a => Ok (f a)
  | Throw e => Throw e
  end.

(** JavaScript's short-circuit [a || b] on calls that may raise: [b] is only
    evaluated when [a] returned [false]. *)
Definition orElse (a b : Outcome bool) : Outcome bool :=
  x ← a; if (x : bool) then Ok true else b.
Infix "|||" := orElse (at level 50, left associativity).

(** *** [BigInt(string)] and [bigint.toString()] *)

Definition is_white_space (c : ascii) : bool :=
  match nat_of_ascii c with
  | 9%nat | 10%nat | 11%nat | 12%nat | 13%nat | 32%nat => true
  | _ => false
  end.

Definition is_decimal_digit (c : ascii) : bool :=
  let n := nat_of_ascii c in (48 <=? n)%nat && (n <=? 57)%nat.

Fixpoint trim_left (cs : list ascii) : list ascii :=
  match cs with
  | c :: cs' => if is_white_space c then trim_left cs' else cs
  | [] => []
  end.

Definition trim (cs : list ascii) : list ascii :=
  rev (trim_left (rev (trim_left cs))).

Definition digit_value (c : ascii) : option Z :=
  let n := Z.of_nat (nat_of_ascii c) in
  if (48 <=? n) && (n <=? 57) then Some (n - 48)
  else if (97 <=? n) && (n <=? 102) then Some (n - 87)
  else if (65 <=? n) && (n <=? 70) then Some (n - 55)
  else None.

(** Digits of a given radix, most significant first. *)
Fixpoint digits_value (radix acc : Z) (cs : list ascii) : option Z :=
  match cs with
  | [] => Some acc
  | c :: cs' =>
      match digit_value c with
      | Some d => if d <? radix then digits_value radix (radix * acc + d) cs' else None
      | None => None
      end
  end.

Definition radix_literal (radix : Z) (cs : list ascii) : option Z :=
  match cs with
  | [] => None
  | _ => digits_value radix 0 cs
  end.

(** A non-empty run of decimal digits. *)
Definition decimal_literal (cs : list ascii) : option Z :=
  Z.of_uint <$> NilZero.uint_of_string (string_of_list_ascii cs).

(** The prefix of a non-decimal literal and what follows it. *)
Definition radix_prefix (cs : list ascii) : option (Z * list ascii) :=
  match cs with
  | c0 :: c1 :: rest =>
      if negb (Ascii.eqb c0 "0") then None
      else if Ascii.eqb c1 "x" || Ascii.eqb c1 "X" then Some (16, rest)
      else if Ascii.eqb c1 "o" || Ascii.eqb c1 "O" then Some (8, rest)
      else if Ascii.eqb c1 "b" || Ascii.eqb c1 "B" then Some (2, rest)
      else None
  | _ => None
  end.

(** The [StringToBigInt] grammar: optional white space around either nothing
    (zero), a signed decimal literal, or an unsigned [0x]/[0o]/[0b]
    literal.  [None] stands for the [SyntaxError] of [BigInt(s)].  Strings
    are sequences of 8-bit characters here, so white space is the ASCII part
    of JavaScript's (tab, line feed, vertical tab, form feed, carriage
    return, space). *)
Definition StringToBigInt (s : string) : option Z :=
  match trim (list_ascii_of_string s) with
  | [] => Some 0
  | c :: cs =>
      if Ascii.eqb c "-" then Z.opp <$> decimal_literal cs
      else if Ascii.eqb c "+" then decimal_literal cs
      else match radix_prefix (c :: cs) with
           | Some (radix, rest) => radix_literal radix rest
           | None => decimal_literal (c :: cs)
           end
  end.

(** [z.toString()] of a bigint: its decimal digits, with a leading minus sign
    when negative. *)
Definition toString (z : Z) : string := NilZero.string_of_int (Z.to_int z).

(** [BigNumber = bigint | string]. *)
Inductive BigNumber :=
| BNbigint (z : Z)
| BNstring (s : string).

(** [BigNumberish = BigNumber | number | Buffer]; a [number] is kept as the
    integer it holds. *)
Inductive BigNumberish :=
| OfBigNumber (b : BigNumber)
| OfNumber (n : Z)
| OfBuffer (b : Buffer).

(** [BigInt(x)] for a [BigNumber]. *)
Definition BigInt (x : BigNumber) : Outcome Z :=
  match x with
  | BNbigint z => Ok z
  | BNstring s =>
      match StringToBigInt s with
      | Some z => Ok z
      | None => Throw (JsSyntaxError "Cannot convert to a BigInt")
      end
  end.

(** [Point<N> = [N, N]] and [Signature<N> = { R8: Point<N>, S: N }]. *)
Definition Point (N : Type) : Type := (N * N)%type.

Record Signature (N : Type) := mkSignature { R8 : Point N; S : N }.
Arguments mkSignature {N} R8 S.
Arguments R8 {N} s.
Arguments S {N} s.

Definition point_map {A B} (f : A -> B) (p : Point A) : Point B := (f p.1, f p.2).
Definition signature_map {A B} (f : A -> B) (s : Signature A) : Signature B :=
  mkSignature (point_map f (R8 s)) (f (S s)).

(** ** Helpers of [./utils] and [@zk-kit/utils] *)

(** Modelled from the spec: [pruneBuffer] of [./utils] is not part of the
    sources; it clears the lowest 3 bits of the first byte, clears the top bit
    of the last byte and sets the second-highest bit of the last byte of the
    32-byte buffer it is given (in place, index 31 being the last byte; a
    slot outside the buffer is left alone). *)
Definition pruneBuffer (buff : Buffer) : Buffer :=
  let buff := alter (fun b => byte_of_Z (Z.land (byte_to_Z b) 0xf8)) 0%nat buff in
  let buff := alter (fun b => byte_of_Z (Z.land (byte_to_Z b) 0x7f)) 31%nat buff in
  alter (fun b => byte_of_Z (Z.lor (byte_to_Z b) 0x40)) 31%nat buff.

(** Modelled from the spec: [leBufferToBigInt] of [@zk-kit/utils]
    ([utils.leBuff2int] in the older variant) is not part of the sources; it
    interprets a byte buffer as a little-endian integer. *)
Fixpoint leBufferToBigInt (buf : Buffer) : Z :=
  match buf with
  | [] => 0
  | b :: bs => byte_to_Z b + 256 * leBufferToBigInt bs
  end.

(** Modelled from the spec: [leBigIntToBuffer] of [@zk-kit/utils] is not part
    of the sources; it encodes an integer as a fixed-width little-endian byte
    buffer (padded or truncated to [size] bytes). *)
Fixpoint leBigIntToBuffer (n : Z) (size : nat) : Buffer :=
  match size with
  | O => []
  | Datatypes.S k => byte_of_Z n :: leBigIntToBuffer (Z.shiftr n 8) k
  end.

(** Modelled from the spec: the [scalar] helpers are not part of the sources;
    [shiftRight] is the right shift and [mul] the product of two bigints. *)
Module scalar.
Definition shiftRight (a n : Z) : Z := Z.shiftr a n.
Definition mul (a b : Z) : Z := a * b.
End scalar.

(** Modelled from the spec: the field class ([F1Field] of [@zk-kit/utils],
    [Field] of [./field]) is not part of the sources; it is thin arithmetic
    modulo its order: [e] reduces an integer, [add] and [mul] are the sum and
    the product modulo the order, [eq] is equality of representatives. *)
Module F1Field.
Definition e (order x : Z) : Z := x mod order.
Definition add (order a b : Z) : Z := (a + b) mod order.
Definition mul (order a b : Z) : Z := (a * b) mod order.
Definition eq (a b : Z) : bool := a =? b.
End F1Field.

(** Modelled from the spec: [isStringifiedBigint] is not part of the sources;
    a string is a stringified bigint when [BigInt] can convert it. *)
Definition isStringifiedBigint (s : string) : bool :=
  match StringToBigInt s with
  | Some _ => true
  | None => false
  end.

Definition isBigNumber (x : BigNumber) : bool :=
  match x with
  | BNbigint _ => true
  | BNstring s => isStringifiedBigint s
  end.

(** Modelled from the spec: [isPoint] and [isSignature] of [./utils] are not
    part of the sources; a point is well formed when both coordinates are
    big numbers, a signature when its [R8] is such a point and its [S] a big
    number.  On values of the TypeScript types [Point] and [Signature] the
    tests on the shape (a pair, an object with [R8] and [S]) hold by typing;
    what is left is the test on the numbers. *)
Definition isPoint (point : Point BigNumber) : bool :=
  isBigNumber point.1 && isBigNumber point.2.

Definition isSignature (signature : Signature BigNumber) : bool :=
  isPoint (R8 signature) && isBigNumber (S signature).

(** ** The external collaborators

    The two hashes, the checks of the private key and of the message, and the
    curve library are not part of the sources; the module consumes them as
    black boxes. *)
Record Lib := {
  (** [./blake]: the key-derivation hash. *)
  blake : Buffer -> Buffer;
  (** [poseidon-lite/poseidon5], on the integer values of its five inputs. *)
  poseidon5 : list Z -> Z;
  (** [./utils]: normalisation of the private key and of the message. *)
  checkPrivateKey : BigNumberish -> Outcome Buffer;
  checkMessage : BigNumberish -> Outcome Z;
  (** [@zk-kit/utils]. *)
  isHexadecimal : string -> bool;
  (** [@zk-kit/baby-jubjub] ([./babyjub] in the older variant). *)
  Base8 : Point Z;
  subOrder : Z;
  addPoint : Point Z -> Point Z -> Point Z;
  mulPointEscalar : Point Z -> Z -> Point Z;
  inCurve : Point Z -> bool;
  packPoint : Point Z -> Z;
  unpackPoint : Z -> option (Point Z)
}.

(** The local bindings of [signMessage]. *)
Record SignTrace := {
  t_s : Z;
  t_A : Point Z;
  t_r : Z;
  t_R8 : Point Z;
  t_hm : Z;
  t_S : Z
}.

Section Coercions.
Context (L : Lib).

(** The curve library converts the coordinates it is given with [BigInt]. *)
Definition toPoint (p : Point BigNumber) : Outcome (Point Z) :=
  x ← BigInt p.1; y ← BigInt p.2; mret (x, y).

Definition inCurve_bn (p : Point BigNumber) : Outcome bool :=
  inCurve L <$> toPoint p.

(** [poseidon5] converts each of its inputs with [BigInt]. *)
Definition poseidon5_bn (inputs : list BigNumber) : Outcome Z :=
  poseidon5 L <$> mapM BigInt inputs.

End Coercions.

(** ** The newer variant (second half of the source file) *)

Module V2.
Section WithLib.
Context (L : Lib).

Definition deriveSecretScalar (privateKey : BigNumberish) : Outcome string :=
  privateKey ← checkPrivateKey L privateKey;
  let hash := blake L privateKey in
  let hash := slice 0 32 hash in
  let hash := pruneBuffer hash in
  mret (toString (scalar.shiftRight (leBufferToBigInt hash) 3)).

Definition derivePublicKey (privateKey : BigNumberish) : Outcome (Point string) :=
  s ← deriveSecretScalar privateKey;
  s ← BigInt (BNstring s);
  let publicKey := mulPointEscalar L (Base8 L) s in
  mret (toString publicKey.1, toString publicKey.2).

(** The body of [signMessage] after the two input checks, with its local
    bindings kept.  [pruneBuffer] writes bytes 0 and 31 of the slice it is
    given; whether [hash.slice(0, 32)] shares its bytes with [hash] or not,
    the bytes 32 to 63 read afterwards are the ones [blake] returned. *)
Definition signTrace (privateKey : Buffer) (message : Z) : SignTrace :=
  let hash := blake L privateKey in
  let sBuff := pruneBuffer (slice 0 32 hash) in
  let s := leBufferToBigInt sBuff in
  let A := mulPointEscalar L (Base8 L) (scalar.shiftRight s 3) in
  let msgBuff := leBigIntToBuffer message 32 in
  let rBuff := blake L (slice 32 64 hash ++ msgBuff) in
  let r := F1Field.e (subOrder L) (leBufferToBigInt rBuff) in
  let R8 := mulPointEscalar L (Base8 L) r in
  let hm := poseidon5 L [R8.1; R8.2; A.1; A.2; message] in
  let S := F1Field.add (subOrder L) r (F1Field.mul (subOrder L) hm s) in
  {| t_s := s; t_A := A; t_r := r; t_R8 := R8; t_hm := hm; t_S := S |}.

Definition signMessage (privateKey message : BigNumberish) : Outcome (Signature string) :=
  privateKey ← checkPrivateKey L privateKey;
  message ← checkMessage L message;
  let t := signTrace privateKey message in
  mret {| R8 := (toString (t_R8 t).1, toString (t_R8 t).2); S := toString (t_S t) |}.

Definition verifySignature (message : BigNumberish) (signature : Signature BigNumber)
    (publicKey : Point BigNumber) : Outcome bool :=
  rejected ←
    Ok (negb (isPoint publicKey)) |||
    Ok (negb (isSignature signature)) |||
    (negb <$> inCurve_bn L (R8 signature)) |||
    (negb <$> inCurve_bn L publicKey) |||
    (s ← BigInt (S signature); mret (subOrder L <=? s));
  if (rejected : bool) then mret false
  else
    message ← checkMessage L message;
    r8x ← BigInt (R8 signature).1;
    r8y ← BigInt (R8 signature).2;
    sigS ← BigInt (S signature);
    let _signature := {| R8 := (r8x, r8y); S := sigS |} in
    pkx ← BigInt publicKey.1;
    pky ← BigInt publicKey.2;
    let _publicKey := (pkx, pky) in
    hm ← poseidon5_bn L [(R8 signature).1; (R8 signature).2; publicKey.1; publicKey.2;
                         BNbigint message];
    sigS' ← BigInt (S signature);
    let pLeft := mulPointEscalar L (Base8 L) sigS' in
    let pRight := mulPointEscalar L _publicKey (scalar.mul hm 8) in
    let pRight := addPoint L (R8 _signature) pRight in
    mret (F1Field.eq pLeft.1 pRight.1 && F1Field.eq pLeft.2 pRight.2).

Definition packPublicKey (publicKey : Point BigNumber) : Outcome string :=
  invalid ← Ok (negb (isPoint publicKey)) ||| (negb <$> inCurve_bn L publicKey);
  if (invalid : bool) then Throw (JsError "Invalid public key")
  else
    x ← BigInt publicKey.1;
    y ← BigInt publicKey.2;
    let _publicKey := (x, y) in
    mret (toString (packPoint L _publicKey)).

Definition unpackPublicKey (publicKey : BigNumber) : Outcome (Point string) :=
  let typeof_bigint := match publicKey with BNbigint _ => true | BNstring _ => false end in
  let stringified := match publicKey with BNstring s => isStringifiedBigint s | _ => false end in
  let hexadecimal := match publicKey with BNstring s => isHexadecimal L s | _ => false end in
  if negb typeof_bigint && negb stringified && negb hexadecimal
  then Throw (JsTypeError "Invalid public key type")
  else
    n ← BigInt publicKey;
    match unpackPoint L n with
    | None => Throw (JsError "Invalid public key")
    | Some unpackedPublicKey =>
        mret (toString unpackedPublicKey.1, toString unpackedPublicKey.2)
    end.

End WithLib.
End V2.

(** ** The older variant (first half of the source file)

    Its helpers come from local modules that are not part of the sources;
    the spec gives them the contracts of their newer counterparts, to which
    they are bound here. *)

Module V1.
Section WithLib.
Context (L : Lib).

(** Modelled from the spec: [leBuff2int] and [leInt2Buff] of the older
    [./utils] are not part of the sources; they are the little-endian
    conversions, the message being encoded on a fixed width of 32 bytes. *)
Definition leBuff2int (buf : Buffer) : Z := leBufferToBigInt buf.
Definition leInt2Buff (n : Z) : Buffer := leBigIntToBuffer n 32.

Definition deriveSecretScalar (privateKey : BigNumberish) : Outcome Z :=
  privateKey ← checkPrivateKey L privateKey;
  let hash := blake L privateKey in
  mret (leBuff2int (pruneBuffer (slice 0 32 hash))).

Definition derivePublicKey (privateKey : BigNumberish) : Outcome (Point string) :=
  s ← deriveSecretScalar privateKey;
  let publicKey := mulPointEscalar L (Base8 L) (scalar.shiftRight s 3) in
  mret (toString publicKey.1, toString publicKey.2).

Definition signTrace (privateKey : Buffer) (message : Z) : SignTrace :=
  let hash := blake L privateKey in
  let sBuff := pruneBuffer (slice 0 32 hash) in
  let s := leBuff2int sBuff in
  let A := mulPointEscalar L (Base8 L) (scalar.shiftRight s 3) in
  let msgBuff := leInt2Buff message in
  let rBuff := blake L (slice 32 64 hash ++ msgBuff) in
  let r := F1Field.e (subOrder L) (leBuff2int rBuff) in
  let R8 := mulPointEscalar L (Base8 L) r in
  let hm := poseidon5 L [R8.1; R8.2; A.1; A.2; message] in
  let S := F1Field.add (subOrder L) r (F1Field.mul (subOrder L) hm s) in
  {| t_s := s; t_A := A; t_r := r; t_R8 := R8; t_hm := hm; t_S := S |}.

Definition signMessage (privateKey message : BigNumberish) : Outcome (Signature string) :=
  privateKey ← checkPrivateKey L privateKey;
  message ← checkMessage L message;
  let t := signTrace privateKey message in
  mret {| R8 := (toString (t_R8 t).1, toString (t_R8 t).2); S := toString (t_S t) |}.

Definition verifySignature (message : BigNumberish) (signature : Signature BigNumber)
    (publicKey : Point BigNumber) : Outcome bool :=
  rejected ←
    Ok (negb (isPoint publicKey)) |||
    Ok (negb (isSignature signature)) |||
    (negb <$> inCurve_bn L (R8 signature)) |||
    (negb <$> inCurve_bn L publicKey) |||
    (s ← BigInt (S signature); mret (subOrder L <=? s));
  if (rejected : bool) then mret false
  else
    message ← checkMessage L message;
    r8x ← BigInt (R8 signature).1;
    r8y ← BigInt (R8 signature).2;
    sigS ← BigInt (S signature);
    let _signature := {| R8 := (r8x, r8y); S := sigS |} in
    pkx ← BigInt publicKey.1;
    pky ← BigInt publicKey.2;
    let _publicKey := (pkx, pky) in
    hm ← poseidon5_bn L [(R8 signature).1; (R8 signature).2; publicKey.1; publicKey.2;
                         BNbigint message];
    sigS' ← BigInt (S signature);
    let pLeft := mulPointEscalar L (Base8 L) sigS' in
    let pRight := mulPointEscalar L _publicKey (scalar.mul hm 8) in
    let pRight := addPoint L (R8 _signature) pRight in
    mret (F1Field.eq pLeft.1 pRight.1 && F1Field.eq pLeft.2 pRight.2).

End WithLib.
End V1.

(** ** The older variant over helpers of its own

    The older variant takes the curve, the field, the scalar helpers and the
    byte conversions from local modules ([./babyjub], [./field], [./scalar],
    [./utils]) where the newer one takes them from [@zk-kit/baby-jubjub] and
    [@zk-kit/utils].  None of them is part of the sources.  Here they are
    black boxes of their own; [./blake], [poseidon5] and the checks and
    pruning of [./utils] are imported alike by both variants. *)
Record OlderHelpers := {
  (** [./babyjub]. *)
  babyjub_Base8 : Point Z;
  babyjub_subOrder : Z;
  babyjub_addPoint : Point Z -> Point Z -> Point Z;
  babyjub_mulPointEscalar : Point Z -> Z -> Point Z;
  babyjub_inCurve : Point Z -> bool;
  babyjub_Fr_eq : Z -> Z -> bool;
  (** [./field]: [new Field(order)] and its methods, the order first. *)
  Field_e : Z -> Z -> Z;
  Field_add : Z -> Z -> Z -> Z;
  Field_mul : Z -> Z -> Z -> Z;
  (** [./scalar]. *)
  scalar_shiftRight : Z -> Z -> Z;
  scalar_mul : Z -> Z -> Z;
  (** The byte conversions of the older [./utils]. *)
  utils_leBuff2int : Buffer -> Z;
  utils_leInt2Buff : Z -> Buffer
}.

Module Older.
Section WithLib.
Context (L : Lib) (O : OlderHelpers).

Definition inCurve_bn (p : Point BigNumber) : Outcome bool :=
  babyjub_inCurve O <$> toPoint p.

Definition deriveSecretScalar (privateKey : BigNumberish) : Outcome Z :=
  privateKey ← checkPrivateKey L privateKey;
  let hash := blake L privateKey in
  mret (utils_leBuff2int O (pruneBuffer (slice 0 32 hash))).

Definition derivePublicKey (privateKey : BigNumberish) : Outcome (Point string) :=
  s ← deriveSecretScalar privateKey;
  let publicKey :=
    babyjub_mulPointEscalar O (babyjub_Base8 O) (scalar_shiftRight O s 3) in
  mret (toString publicKey.1, toString publicKey.2).

Definition signTrace (privateKey : Buffer) (message : Z) : SignTrace :=
  let hash := blake L privateKey in
  let sBuff := pruneBuffer (slice 0 32 hash) in
  let s := utils_leBuff2int O sBuff in
  let A := babyjub_mulPointEscalar O (babyjub_Base8 O) (scalar_shiftRight O s 3) in
  let msgBuff := utils_leInt2Buff O message in
  let rBuff := blake L (slice 32 64 hash ++ msgBuff) in
  let Fr := babyjub_subOrder O in
  let r := Field_e O Fr (utils_leBuff2int O rBuff) in
  let R8 := babyjub_mulPointEscalar O (babyjub_Base8 O) r in
  let hm := poseidon5 L [R8.1; R8.2; A.1; A.2; message] in
  let S := Field_add O Fr r (Field_mul O Fr hm s) in
  {| t_s := s; t_A := A; t_r := r; t_R8 := R8; t_hm := hm; t_S := S |}.

Definition signMessage (privateKey message : BigNumberish) : Outcome (Signature string) :=
  privateKey ← checkPrivateKey L privateKey;
  message ← checkMessage L message;
  let t := signTrace privateKey message in
  mret {| R8 := (toString (t_R8 t).1, toString (t_R8 t).2); S := toString (t_S t) |}.

Definition verifySignature (message : BigNumberish) (signature : Signature BigNumber)
    (publicKey : Point BigNumber) : Outcome bool :=
  rejected ←
    Ok (negb (isPoint publicKey)) |||
    Ok (negb (isSignature signature)) |||
    (negb <$> inCurve_bn (R8 signature)) |||
    (negb <$> inCurve_bn publicKey) |||
    (s ← BigInt (S signature); mret (babyjub_subOrder O <=? s));
  if (rejected : bool) then mret false
  else
    message ← checkMessage L message;
    r8x ← BigInt (R8 signature).1;
    r8y ← BigInt (R8 signature).2;
    sigS ← BigInt (S signature);
    let _signature := {| R8 := (r8x, r8y); S := sigS |} in
    pkx ← BigInt publicKey.1;
    pky ← BigInt publicKey.2;
    let _publicKey := (pkx, pky) in
    hm ← poseidon5_bn L [(R8 signature).1; (R8 signature).2; publicKey.1; publicKey.2;
                         BNbigint message];
    sigS' ← BigInt (S signature);
    let pLeft := babyjub_mulPointEscalar O (babyjub_Base8 O) sigS' in
    let pRight := babyjub_mulPointEscalar O _publicKey (scalar_mul O hm 8) in
    let pRight := babyjub_addPoint O (R8 _signature) pRight in
    mret (babyjub_Fr_eq O pLeft.1 pRight.1 && babyjub_Fr_eq O pLeft.2 pRight.2).

End WithLib.
End Older.

(** The helpers of the newer variant, as helpers of the older one: [V1] is
    [Older] over them. *)
Definition newer_helpers (L : Lib) : OlderHelpers :=
  {| babyjub_Base8 := Base8 L;
     babyjub_subOrder := subOrder L;
     babyjub_addPoint := addPoint L;
     babyjub_mulPointEscalar := mulPointEscalar L;
     babyjub_inCurve := inCurve L;
     babyjub_Fr_eq := F1Field.eq;
     Field_e := F1Field.e;
     Field_add := F1Field.add;
     Field_mul := F1Field.mul;
     scalar_shiftRight := scalar.shiftRight;
     scalar_mul := scalar.mul;
     utils_leBuff2int := leBufferToBigInt;
     utils_leInt2Buff := fun n => leBigIntToBuffer n 32 |}.

(** The older helpers compute what the newer ones do, on every argument;
    [leInt2Buff] writes the 32 bytes the newer variant asks for. *)
Record helpers_agree (L : Lib) (O : OlderHelpers) : Prop := {
  agree_Base8 : babyjub_Base8 O = Base8 L;
  agree_subOrder : babyjub_subOrder O = subOrder L;
  agree_addPoint : forall P Q, babyjub_addPoint O P Q = addPoint L P Q;
  agree_mulPointEscalar : forall P e, babyjub_mulPointEscalar O P e = mulPointEscalar L P e;
  agree_inCurve : forall P, babyjub_inCurve O P = inCurve L P;
  agree_Fr_eq : forall a b, babyjub_Fr_eq O a b = F1Field.eq a b;
  agree_Field_e : forall order x, Field_e O order x = F1Field.e order x;
  agree_Field_add : forall order a b, Field_add O order a b = F1Field.add order a b;
  agree_Field_mul : forall order a b, Field_mul O order a b = F1Field.mul order a b;
  agree_shiftRight : forall a n, scalar_shiftRight O a n = scalar.shiftRight a n;
  agree_mul : forall a b, scalar_mul O a b = scalar.mul a b;
  agree_leBuff2int : forall buf, utils_leBuff2int O buf = leBufferToBigInt buf;
  agree_leInt2Buff : forall n, utils_leInt2Buff O n = leBigIntToBuffer n 32
}.

(** ** The class [EdDSAPoseidon] (end of the newer variant) *)

Module EdDSAPoseidon.

(** The fields of an instance; [publicKey] holds the pair of decimal strings
    [derivePublicKey] returns. *)
Record t := mk {
  privateKey : BigNumberish;
  secretScalar : string;
  publicKey : Point BigNumber;
  packedPublicKey : string
}.

Section WithLib.
Context (L : Lib).

Definition constructor (privateKey : BigNumberish) : Outcome t :=
  secretScalar ← V2.deriveSecretScalar L privateKey;
  publicKey ← V2.derivePublicKey L privateKey;
  let publicKey := point_map BNstring publicKey in
  packedPublicKey ← V2.packPublicKey L publicKey;
  mret (mk privateKey secretScalar publicKey packedPublicKey).

Definition signMessage (this : t) (message : BigNumberish) : Outcome (Signature string) :=
  V2.signMessage L (privateKey this) message.

Definition verifySignature (this : t) (message : BigNumberish)
    (signature : Signature BigNumber) : Outcome bool :=
  V2.verifySignature L message signature (publicKey this).

End WithLib.
End EdDSAPoseidon.

(** ** Specification-level definitions *)

(** The integer a big number stands for ([0] when [BigInt] rejects it), and
    the same on points. *)
Definition valueOf (x : BigNumber) : Z :=
  match BigInt x with
  | Ok z => z
  | Throw _ => 0
  end.

Definition pointValue (p : Point BigNumber) : Point Z := (valueOf p.1, valueOf p.2).

Section Verdict.
Context (L : Lib).

(** The guard of [verifySignature], as a function of the signature and the
    public key. *)
Definition rejects (signature : Signature BigNumber) (publicKey : Point BigNumber) : bool :=
  negb (isPoint publicKey) ||
  negb (isSignature signature) ||
  negb (inCurve L (pointValue (R8 signature))) ||
  negb (inCurve L (pointValue publicKey)) ||
  (subOrder L <=? valueOf (S signature)).

(** The verification equation [S * Base8 == R8 + (8 * hm) * publicKey]. *)
Definition verdict (message : Z) (signature : Signature BigNumber)
    (publicKey : Point BigNumber) : bool :=
  let R8z := pointValue (R8 signature) in
  let A := pointValue publicKey in
  let hm := poseidon5 L [R8z.1; R8z.2; A.1; A.2; message] in
  let pLeft := mulPointEscalar L (Base8 L) (valueOf (S signature)) in
  let pRight := addPoint L R8z (mulPointEscalar L A (hm * 8)) in
  (pLeft.1 =? pRight.1) && (pLeft.2 =? pRight.2).

(** The guard of [packPublicKey]. *)
Definition validPublicKey (publicKey : Point BigNumber) : bool :=
  isPoint publicKey && inCurve L (pointValue publicKey).

(** The nonce of a signature in the words of the spec: the hash of the
    digest's high 32 bytes followed by the message on 32 little-endian bytes,
    reduced modulo the subgroup order. *)
Definition nonce_spec (privateKey : Buffer) (message : Z) : Z :=
  let digest := blake L privateKey in
  leBufferToBigInt (blake L (drop 32 digest ++ leBigIntToBuffer message 32))
    mod subOrder L.
End Verdict.

(** Pruning in the words of the spec, bit by bit: the lowest 3 bits of the
    first byte are cleared, the top bit of the last byte is cleared and its
    second-highest bit is set. *)
Definition clear_bits (b : byte) (bits : list Z) : byte :=
  byte_of_Z (fold_left Z.clearbit bits (byte_to_Z b)).

Definition set_bits (b : byte) (bits : list Z) : byte :=
  byte_of_Z (fold_left Z.setbit bits (byte_to_Z b)).

Definition prune_spec (buf : Buffer) : Buffer :=
  let buf := alter (fun b => clear_bits b [0; 1; 2]) 0%nat buf in
  alter (fun b => set_bits (clear_bits b [7]) [6]) (length buf - 1)%nat buf.

(** The secret scalar in the words of the spec, from the 64-byte digest of
    the private key. *)
Definition secret_scalar_spec (digest : Buffer) : Z :=
  Z.shiftr (leBufferToBigInt (prune_spec (take 32 digest))) 3.

(** ** Contract of the external collaborators *)

(** Modelled from the spec: the curve library and the two hashes are not part
    of the sources; the spec gives their contracts.  [G] is the set of valid
    points: pairs of reduced field elements on the curve.  With the neutral
    element [(0, 1)] and [addPoint] they form a monoid on which
    [mulPointEscalar] is the iterated sum; [Base8] is a valid point whose
    order divides [subOrder]; packing a valid point can be undone.  The hash
    of the key derivation yields 64 bytes and the challenge hash a field
    element, hence a non-negative integer. *)
Record Contract (L : Lib) (G : Point Z -> Prop) : Prop := {
  blake_length : forall buf, length (blake L buf) = 64%nat;
  poseidon5_nonneg : forall inputs, 0 <= poseidon5 L inputs;
  subOrder_pos : 0 < subOrder L;
  valid_inCurve : forall P, G P -> inCurve L P = true;
  valid_neutral : G (0, 1);
  valid_Base8 : G (Base8 L);
  valid_addPoint : forall P Q, G P -> G Q -> G (addPoint L P Q);
  addPoint_neutral : forall P, G P -> addPoint L (0, 1) P = P;
  addPoint_assoc : forall P Q R, G P -> G Q -> G R ->
    addPoint L P (addPoint L Q R) = addPoint L (addPoint L P Q) R;
  mulPointEscalar_0 : forall P, G P -> mulPointEscalar L P 0 = (0, 1);
  mulPointEscalar_succ : forall P n, G P -> 0 <= n ->
    mulPointEscalar L P (n + 1) = addPoint L P (mulPointEscalar L P n);
  Base8_order : mulPointEscalar L (Base8 L) (subOrder L) = (0, 1);
  unpack_pack : forall P, G P -> unpackPoint L (packPoint L P) = Some P
}.

(** ** A small library meeting the contract

    The curve [a x^2 + y^2 = 1 + d x^2 y^2] with Baby Jubjub's coefficients
    [a = 168700] and [d = 168696] read in the field of 43 elements: 40 points,
    cofactor 8, and a base point of order 5.  The two hashes are simple
    stand-ins. *)
Module Toy.

Definition p : Z := 43.
Definition a : Z := 168700 mod p.
Definition d : Z := 168696 mod p.

(** Powers modulo [p] by squaring, and the inverse as the power [p - 2]. *)
Fixpoint pow_mod (x : Z) (e : positive) : Z :=
  match e with
  | xH => x mod p
  | xO e' => let y := pow_mod x e' in (y * y) mod p
  | xI e' => let y := pow_mod x e' in (y * y * x) mod p
  end.

Definition inv (x : Z) : Z := pow_mod (x mod p) 41.

Definition inCurve (P : Point Z) : bool :=
  (0 <=? P.1) && (P.1 <? p) && (0 <=? P.2) && (P.2 <? p) &&
  ((a * P.1 * P.1 + P.2 * P.2) mod p =? (1 + d * P.1 * P.1 * P.2 * P.2) mod p).

Definition addPoint (P Q : Point Z) : Point Z :=
  let tau := d * P.1 * Q.1 * P.2 * Q.2 in
  (((P.1 * Q.2 + P.2 * Q.1) * inv (1 + tau)) mod p,
   ((P.2 * Q.2 - a * P.1 * Q.1) * inv (1 - tau)) mod p).

(** Double and add, as a loop over the bits of the scalar from the lowest:
    [res] accumulates the sum and [exp] is doubled at every step.  The
    contract speaks of the scalars from [0] on only; a negative scalar is
    outside it: this library answers the neutral element there, and no
    property below rests on that answer. *)
Fixpoint mul_loop (res exp : Point Z) (rem : positive) : Point Z :=
  match rem with
  | xH => addPoint res exp
  | xO rem' => mul_loop res (addPoint exp exp) rem'
  | xI rem' => mul_loop (addPoint res exp) (addPoint exp exp) rem'
  end.

Definition mulPointEscalar (P : Point Z) (e : Z) : Point Z :=
  match e with
  | Zpos n => mul_loop (0, 1) P n
  | Z0 | Zneg _ => (0, 1)
  end.

Definition Base8 : Point Z := (34, 32).
Definition subOrder : Z := 5.

(** A point is packed as its [y] with one more bit telling whether [x] lies
    in the upper half of the field. *)
Definition packPoint (P : Point Z) : Z :=
  if p / 2 <? P.1 then P.2 + 64 else P.2.

Definition unpackPoint (n : Z) : option (Point Z) :=
  if (0 <=? n) && (n <? 128) then
    let y := n mod 64 in
    let sign := 64 <=? n in
    find (fun P => inCurve P && Bool.eqb (p / 2 <? P.1) sign)
         ((fun x => (x, y)) <$> seqZ 0 p)
  else None.

Definition points : list (Point Z) :=
  filter (fun P => inCurve P = true) (x ← seqZ 0 p; (fun y => (x, y)) <$> seqZ 0 p).

(** The curve group is cyclic: [table] lists the multiples [0 * g], [1 * g],
    ..., [39 * g] of the generator [g = (1, 4)]. *)
Definition generator : Point Z := (1, 4).

Fixpoint multiples (n : nat) (acc : Point Z) : list (Point Z) :=
  match n with
  | O => []
  | Datatypes.S n' => acc :: multiples n' (addPoint generator acc)
  end.

Definition table : list (Point Z) := Eval vm_compute in multiples 40 (0, 1).

Definition point_eqb (P Q : Point Z) : bool := (P.1 =? Q.1) && (P.2 =? Q.2).

Definition entry (i : nat) : Point Z := nth i table (0, 1).

Definition absorb (buf : Buffer) : Z :=
  fold_left (fun acc b => (acc * 31 + byte_to_Z b + 1) mod 65521) buf 7.

Definition blake (buf : Buffer) : Buffer :=
  (fun i => byte_of_Z (absorb buf * (2 * i + 1) + i * i)) <$> seqZ 0 64.

Definition poseidon5 (inputs : list Z) : Z :=
  fold_left (fun acc x => (acc * 5 + x) mod p) inputs 1 mod p.

Definition checkPrivateKey (privateKey : BigNumberish) : Outcome Buffer :=
  match privateKey with
  | OfBuffer b =>
      if (length b =? 32)%nat then Ok b else Throw (JsError "Invalid private key")
  | OfBigNumber x => z ← BigInt x; mret (leBigIntToBuffer z 32)
  | OfNumber n => Ok (leBigIntToBuffer n 32)
  end.

Definition checkMessage (message : BigNumberish) : Outcome Z :=
  let bounded (z : Z) :=
    if (0 <=? z) && (z <? p) then Ok z else Throw (JsError "Invalid message") in
  match message with
  | OfBigNumber x => z ← BigInt x; bounded z
  | OfNumber n => bounded n
  | OfBuffer b => bounded (leBufferToBigInt b)
  end.

Definition isHexadecimal (s : string) : bool :=
  match radix_prefix (list_ascii_of_string s) with
  | Some (16, rest) => match radix_literal 16 rest with Some _ => true | None => false end
  | _ => false
  end.

Definition lib : Lib :=
  Build_Lib blake poseidon5 checkPrivateKey checkMessage isHexadecimal
    Base8 subOrder addPoint mulPointEscalar inCurve packPoint unpackPoint.

Definition valid (P : Point Z) : Prop := inCurve P = true.

(** A private key (32 bytes, the last one with its high bit set), the message
    [2], and a message outside the field. *)
Definition key_bytes : Buffer := replicate 31 x00 ++ [x80].
Definition key : BigNumberish := OfBuffer key_bytes.
Definition message : BigNumberish := OfBigNumber (BNbigint 2).
Definition bad_message : BigNumberish := OfBigNumber (BNbigint 43).

(** The public key of [key], its signature of [message], the same signature
    with [subOrder] added to or subtracted from [S], and a packed key. *)
Definition publicKey : Point string := ("9", "32")%string.
Definition signature : Signature string :=
  {| R8 := ("34", "32")%string; S := "2"%string |}.
Definition signature_plus : Signature BigNumber :=
  {| R8 := (BNstring "34", BNstring "32"); S := BNbigint 7 |}.
Definition signature_minus : Signature BigNumber :=
  {| R8 := (BNstring "34", BNstring "32"); S := BNbigint (-3) |}.
Definition off_curve : Point BigNumber := (BNstring "1", BNstring "1").

(** Helpers for the older variant over the same curve, with the arithmetic
    of the field and the product of scalars written another way. *)
Definition older_helpers : OlderHelpers :=
  {| babyjub_Base8 := Base8;
     babyjub_subOrder := subOrder;
     babyjub_addPoint := addPoint;
     babyjub_mulPointEscalar := mulPointEscalar;
     babyjub_inCurve := inCurve;
     babyjub_Fr_eq := fun a b => if Z.eq_dec a b then true else false;
     Field_e := fun order x => x mod order;
     Field_add := fun order a b => (a mod order + b mod order) mod order;
     Field_mul := fun order a b => ((a mod order) * (b mod order)) mod order;
     scalar_shiftRight := Z.shiftr;
     scalar_mul := fun a b => b * a;
     utils_leBuff2int := fun buf => foldr (fun b acc => byte_to_Z b + 256 * acc) 0 buf;
     utils_leInt2Buff := fun n => leBigIntToBuffer n 32 |}.

End Toy.

(** More inputs for the small library: the public key and the signature of
    [Toy.key] written as bigints and as hexadecimal strings, a packed key that
    no point has, and a string that is no number. *)
Module ToyInputs.

Definition publicKey_hex : Point BigNumber := (BNstring "0x9", BNbigint 32).
Definition signature_hex : Signature BigNumber :=
  {| R8 := (BNbigint 34, BNstring " 0x20 "); S := BNstring "0b10" |}.
Definition no_point : BigNumber := BNbigint 2.
Definition no_number : BigNumber := BNstring "key".
Definition bad_key : BigNumberish := OfBuffer [x00].

(** The instance built from [Toy.key]. *)
Definition instance : EdDSAPoseidon.t :=
  EdDSAPoseidon.mk Toy.key
    "4891393927606618580375123861568962851135461311263744731368590272074815338589"
    (point_map BNstring Toy.publicKey) "32".

End ToyInputs.

(** * Properties *)

Example StringToBigInt_examples :
  StringToBigInt "  42 " = Some 42 /\ StringToBigInt "-007" = Some (-7) /\
  StringToBigInt "0xfF" = Some 255 /\ StringToBigInt "" = Some 0 /\
  StringToBigInt "-" = None /\ StringToBigInt "12a" = None /\
  StringToBigInt "-0x1" = None /\ StringToBigInt "0b102" = None /\
  toString (-120) = "-120"%string /\ toString 0 = "0"%string.
Proof. repeat split; reflexivity. Qed.

(** ** The JavaScript values: bytes and decimal strings *)

Lemma byte_to_Z_range (b : byte) : 0 <= byte_to_Z b < 256.
Proof. unfold byte_to_Z. pose proof (Byte.to_N_bounded b). lia. Qed.

Lemma byte_to_of_Z (z : Z) : byte_to_Z (byte_of_Z z) = z mod 256.
Proof.
  unfold byte_to_Z, byte_of_Z.
  pose proof (Z.mod_pos_bound z 256 eq_refl) as Hr.
  destruct (Byte.of_N (Z.to_N (z mod 256))) as [b|] eqn:E.
  - apply Byte.to_of_N in E. rewrite E. lia.
  - apply Byte.of_N_None_iff in E. lia.
Qed.

Lemma byte_of_to_Z (b : byte) : byte_of_Z (byte_to_Z b) = b.
Proof.
  unfold byte_of_Z. pose proof (byte_to_Z_range b).
  rewrite Z.mod_small by lia. unfold byte_to_Z.
  rewrite N2Z.id, Byte.of_to_N. reflexivity.
Qed.

Lemma string_of_uint_digits (d : Decimal.uint) :
  Forall (fun c => is_decimal_digit c = true)
         (list_ascii_of_string (NilEmpty.string_of_uint d)).
Proof. induction d; simpl; constructor; auto. Qed.

Lemma trim_left_id (cs : list ascii) :
  Forall (fun c => is_white_space c = false) cs -> trim_left cs = cs.
Proof. destruct 1 as [|c cs Hc _]; simpl; [reflexivity | now rewrite Hc]. Qed.

Lemma trim_id (cs : list ascii) :
  Forall (fun c => is_white_space c = false) cs -> trim cs = cs.
Proof.
  intros H. unfold trim. rewrite (trim_left_id cs H).
  rewrite trim_left_id by (apply Forall_rev; exact H).
  apply rev_involutive.
Qed.

Lemma digit_facts (c : ascii) :
  is_decimal_digit c = true ->
  is_white_space c = false /\ Ascii.eqb c "-" = false /\ Ascii.eqb c "+" = false /\
  Ascii.eqb c "x" = false /\ Ascii.eqb c "X" = false /\
  Ascii.eqb c "o" = false /\ Ascii.eqb c "O" = false /\
  Ascii.eqb c "b" = false /\ Ascii.eqb c "B" = false.
Proof.
  destruct c as [[] [] [] [] [] [] [] []]; vm_compute; intros H;
    first [discriminate H | repeat split].
Qed.

Lemma radix_prefix_digits (cs : list ascii) :
  Forall (fun c => is_decimal_digit c = true) cs -> radix_prefix cs = None.
Proof.
  intros H. destruct H as [|c0 cs _ H]; [reflexivity|].
  destruct H as [|c1 cs H1 _]; [reflexivity|].
  apply digit_facts in H1. unfold radix_prefix.
  destruct H1 as (_ & _ & _ & -> & -> & -> & -> & -> & ->).
  now destruct (negb (Ascii.eqb c0 "0")).
Qed.

Lemma decimal_literal_of_uint (d : Decimal.uint) :
  d <> Decimal.Nil ->
  decimal_literal (list_ascii_of_string (NilEmpty.string_of_uint d)) = Some (Z.of_uint d).
Proof.
  intros Hd. unfold decimal_literal.
  rewrite string_of_list_ascii_of_string.
  replace (NilEmpty.string_of_uint d) with (NilZero.string_of_uint d)
    by (destruct d; [contradiction | reflexivity ..]).
  now rewrite NilZero.usu.
Qed.

Lemma StringToBigInt_of_uint (d : Decimal.uint) :
  d <> Decimal.Nil ->
  StringToBigInt (NilEmpty.string_of_uint d) = Some (Z.of_uint d).
Proof.
  intros Hd. unfold StringToBigInt.
  pose proof (string_of_uint_digits d) as Hdig.
  rewrite trim_id
    by (eapply Forall_impl; [exact Hdig|]; intros c Hc; apply (digit_facts c Hc)).
  pose proof (decimal_literal_of_uint d Hd) as Hlit.
  pose proof (radix_prefix_digits _ Hdig) as Hpre.
  destruct (list_ascii_of_string (NilEmpty.string_of_uint d)) as [|c cs] eqn:E.
  - destruct d; simpl in E; first [contradiction | discriminate].
  - inversion Hdig as [|? ? Hc _]; subst.
    apply digit_facts in Hc. destruct Hc as (_ & -> & -> & _).
    now rewrite Hpre.
Qed.

Lemma StringToBigInt_toString (z : Z) : StringToBigInt (toString z) = Some z.
Proof.
  unfold toString. destruct z as [|n|n]; [reflexivity | |].
  - simpl. pose proof (DecimalPos.Unsigned.to_uint_nonnil n) as Hn.
    replace (NilZero.string_of_uint (Pos.to_uint n))
      with (NilEmpty.string_of_uint (Pos.to_uint n))
      by (destruct (Pos.to_uint n); [contradiction | reflexivity ..]).
    rewrite StringToBigInt_of_uint by exact Hn.
    f_equal. exact (DecimalZ.of_to (Zpos n)).
  - simpl. pose proof (DecimalPos.Unsigned.to_uint_nonnil n) as Hn.
    replace (NilZero.string_of_uint (Pos.to_uint n))
      with (NilEmpty.string_of_uint (Pos.to_uint n))
      by (destruct (Pos.to_uint n); [contradiction | reflexivity ..]).
    unfold StringToBigInt.
    pose proof (string_of_uint_digits (Pos.to_uint n)) as Hdig.
    rewrite trim_id.
    + simpl. rewrite decimal_literal_of_uint by exact Hn. simpl.
      f_equal. exact (DecimalZ.of_to (Zneg n)).
    + simpl. constructor; [reflexivity|].
      eapply Forall_impl; [exact Hdig|]. intros c Hc; apply (digit_facts c Hc).
Qed.

Lemma BigInt_toString (z : Z) : BigInt (BNstring (toString z)) = Ok z.
Proof. unfold BigInt. now rewrite StringToBigInt_toString. Qed.

Lemma isBigNumber_toString (z : Z) : isBigNumber (BNstring (toString z)) = true.
Proof. unfold isBigNumber, isStringifiedBigint. now rewrite StringToBigInt_toString. Qed.

Lemma valueOf_toString (z : Z) : valueOf (BNstring (toString z)) = z.
Proof. unfold valueOf. now rewrite BigInt_toString. Qed.

Lemma isBigNumber_BigInt (x : BigNumber) :
  isBigNumber x = true -> BigInt x = Ok (valueOf x).
Proof.
  unfold valueOf. destruct x as [z|s]; [reflexivity|].
  unfold isBigNumber, isStringifiedBigint, BigInt.
  now destruct (StringToBigInt s).
Qed.

(** ** Little-endian buffers and pruning *)

Lemma leBufferToBigInt_app (l1 l2 : Buffer) :
  leBufferToBigInt (l1 ++ l2) =
  leBufferToBigInt l1 + 2 ^ (8 * Z.of_nat (length l1)) * leBufferToBigInt l2.
Proof.
  induction l1 as [|b l1 IH]; cbn [app leBufferToBigInt length].
  - change (2 ^ (8 * Z.of_nat 0)) with 1. lia.
  - rewrite IH.
    replace (8 * Z.of_nat (Datatypes.S (length l1))) with (8 + 8 * Z.of_nat (length l1)) by lia.
    rewrite Z.pow_add_r by lia. change (2 ^ 8) with 256. ring.
Qed.

Lemma leBufferToBigInt_range (l : Buffer) :
  0 <= leBufferToBigInt l < 2 ^ (8 * Z.of_nat (length l)).
Proof.
  induction l as [|b l IH]; cbn [leBufferToBigInt length].
  - change (2 ^ (8 * Z.of_nat 0)) with 1. lia.
  - pose proof (byte_to_Z_range b).
    replace (8 * Z.of_nat (Datatypes.S (length l))) with (8 + 8 * Z.of_nat (length l)) by lia.
    rewrite Z.pow_add_r by lia. change (2 ^ 8) with 256. lia.
Qed.

Lemma length_leBigIntToBuffer (n : Z) (size : nat) :
  length (leBigIntToBuffer n size) = size.
Proof. revert n; induction size as [|k IH]; intros n; simpl; [|rewrite IH]; reflexivity. Qed.

(** A 32-byte buffer is a first byte, 30 bytes and a last byte. *)
Lemma buffer32_shape (buf : Buffer) :
  length buf = 32%nat ->
  exists b0 mid b31, buf = b0 :: mid ++ [b31] /\ length mid = 30%nat.
Proof.
  intros Hlen. destruct buf as [|b0 t]; [discriminate|].
  destruct (exists_last (l := t)) as (mid & b31 & ->).
  { intros ->. discriminate. }
  exists b0, mid, b31. split; [reflexivity|].
  simpl in Hlen. rewrite length_app in Hlen. simpl in Hlen. lia.
Qed.

Lemma alter_last {A} (f : A -> A) (mid : list A) (x : A) :
  alter f (length mid) (mid ++ [x]) = mid ++ [f x].
Proof. induction mid as [|y mid IH]; simpl; [reflexivity | now f_equal]. Qed.

Lemma alter_cons_S {A} (f : A -> A) (n : nat) (x : A) (l : list A) :
  alter f (Datatypes.S n) (x :: l) = x :: alter f n l.
Proof. reflexivity. Qed.

Lemma pruneBuffer_shape (b0 b31 : byte) (mid : Buffer) :
  length mid = 30%nat ->
  pruneBuffer (b0 :: mid ++ [b31]) =
  byte_of_Z (Z.land (byte_to_Z b0) 0xf8) :: mid ++
  [byte_of_Z (Z.lor (byte_to_Z (byte_of_Z (Z.land (byte_to_Z b31) 0x7f))) 0x40)].
Proof.
  intros Hmid. unfold pruneBuffer.
  change (alter ?f 0%nat (b0 :: ?l)) with (f b0 :: l).
  replace 31%nat with (Datatypes.S (length mid)) by (rewrite Hmid; reflexivity).
  rewrite alter_cons_S, alter_last, alter_cons_S, alter_last. reflexivity.
Qed.

Lemma prune_spec_shape (b0 b31 : byte) (mid : Buffer) :
  prune_spec (b0 :: mid ++ [b31]) =
  clear_bits b0 [0; 1; 2] :: mid ++ [set_bits (clear_bits b31 [7]) [6]].
Proof.
  unfold prune_spec.
  change (alter ?f 0%nat (b0 :: ?l)) with (f b0 :: l).
  cbn [length]. rewrite Nat.sub_1_r. cbn [Nat.pred].
  rewrite length_app. cbn [length].
  replace (length mid + 1)%nat with (Datatypes.S (length mid)) by lia.
  now rewrite alter_cons_S, alter_last.
Qed.

Lemma mask_first_byte (b : byte) :
  byte_of_Z (Z.land (byte_to_Z b) 0xf8) = clear_bits b [0; 1; 2] /\
  byte_to_Z (byte_of_Z (Z.land (byte_to_Z b) 0xf8)) mod 8 = 0.
Proof. destruct b; vm_compute; split; reflexivity. Qed.

Lemma mask_last_byte (b : byte) :
  let b' := byte_of_Z (Z.lor (byte_to_Z (byte_of_Z (Z.land (byte_to_Z b) 0x7f))) 0x40) in
  b' = set_bits (clear_bits b [7]) [6] /\ 64 <= byte_to_Z b' < 128.
Proof. destruct b; vm_compute; repeat split; congruence. Qed.

(** On a 32-byte buffer the masks of [pruneBuffer] do what the spec says bit
    by bit. *)
Lemma pruneBuffer_prune_spec (buf : Buffer) :
  length buf = 32%nat -> pruneBuffer buf = prune_spec buf.
Proof.
  intros Hlen. destruct (buffer32_shape buf Hlen) as (b0 & mid & b31 & -> & Hmid).
  rewrite pruneBuffer_shape by exact Hmid. rewrite prune_spec_shape.
  destruct (mask_first_byte b0) as [-> _].
  destruct (mask_last_byte b31) as [-> _]. reflexivity.
Qed.

(** The pruned buffer read as an integer: bit 254 is its highest set bit and
    its three lowest bits are clear. *)
Lemma pruned_scalar_range (buf : Buffer) :
  length buf = 32%nat ->
  let s := leBufferToBigInt (pruneBuffer buf) in
  2 ^ 254 <= s < 2 ^ 255 /\ s mod 8 = 0.
Proof.
  intros Hlen. destruct (buffer32_shape buf Hlen) as (b0 & mid & b31 & -> & Hmid).
  rewrite pruneBuffer_shape by exact Hmid.
  destruct (mask_first_byte b0) as [_ H0].
  destruct (mask_last_byte b31) as [_ H31]. cbv zeta in H31.
  pose proof (byte_to_Z_range (byte_of_Z (Z.land (byte_to_Z b0) 0xf8))) as Hb0.
  pose proof (leBufferToBigInt_range mid) as Hm. rewrite Hmid in Hm.
  cbv zeta. cbn [leBufferToBigInt].
  rewrite leBufferToBigInt_app. cbn [leBufferToBigInt]. rewrite Hmid.
  change (8 * Z.of_nat 30) with 240 in *.
  generalize dependent (byte_to_Z (byte_of_Z (Z.land (byte_to_Z b0) 0xf8))).
  intros x H0 Hb0.
  generalize dependent
    (byte_to_Z (byte_of_Z (Z.lor (byte_to_Z (byte_of_Z (Z.land (byte_to_Z b31) 0x7f))) 0x40))).
  intros y H31.
  generalize dependent (leBufferToBigInt mid). intros m.
  change (2 ^ 254) with (256 * (2 ^ 240 * 64)).
  change (2 ^ 255) with (256 * (2 ^ 240 * 128)).
  generalize (2 ^ 240). intros P Hm.
  split; [nia|].
  replace (x + 256 * (m + P * (y + 256 * 0))) with (x + (32 * (m + P * y)) * 8) by ring.
  rewrite Z.mod_add by lia. exact H0.
Qed.

Lemma slice_low_length (digest : Buffer) :
  length digest = 64%nat -> length (slice 0 32 digest) = 32%nat.
Proof. intros H. unfold slice. rewrite length_take, length_drop, H. reflexivity. Qed.

Lemma slice_low_take (digest : Buffer) : slice 0 32 digest = take 32 digest.
Proof. reflexivity. Qed.

Lemma slice_high_drop (digest : Buffer) :
  length digest = 64%nat -> slice 32 64 digest = drop 32 digest.
Proof.
  intros H. unfold slice. apply take_ge. rewrite length_drop, H. simpl. lia.
Qed.

Lemma length_pruneBuffer (buf : Buffer) : length (pruneBuffer buf) = length buf.
Proof. unfold pruneBuffer. now rewrite !length_alter. Qed.

(** Pruning the low half of the digest in place leaves its high half as it
    was. *)
Lemma slice_high_after_pruning (digest : Buffer) :
  length digest = 64%nat ->
  slice 32 64 (pruneBuffer (slice 0 32 digest) ++ drop 32 digest) = slice 32 64 digest.
Proof.
  intros H. unfold slice at 1.
  rewrite drop_app_length'
    by (rewrite length_pruneBuffer; symmetry; apply slice_low_length, H).
  rewrite slice_high_drop by exact H.
  apply take_ge. rewrite length_drop, H. simpl. lia.
Qed.

(** ** Consequences of the contract: scalar multiplication on valid points *)

Section Group.
Context (L : Lib) (G : Point Z -> Prop) (HC : Contract L G).

Local Abbreviation add := (addPoint L).
Local Abbreviation mul := (mulPointEscalar L).
Local Abbreviation B := (Base8 L).
Local Abbreviation l := (subOrder L).

Lemma valid_mul P n : G P -> 0 <= n -> G (mul P n).
Proof.
  intros HP Hn. revert n Hn. apply natlike_ind.
  - rewrite (mulPointEscalar_0 L G HC) by exact HP. apply (valid_neutral L G HC).
  - intros n Hn IH. unfold Z.succ.
    rewrite (mulPointEscalar_succ L G HC) by assumption.
    now apply (valid_addPoint L G HC).
Qed.

Lemma mul_add P n m : G P -> 0 <= n -> 0 <= m -> mul P (n + m) = add (mul P n) (mul P m).
Proof.
  intros HP Hn Hm. revert n Hn. apply natlike_ind.
  - rewrite (mulPointEscalar_0 L G HC) by exact HP.
    rewrite (addPoint_neutral L G HC) by now apply valid_mul.
    reflexivity.
  - intros n Hn IH. unfold Z.succ.
    replace (n + 1 + m) with (n + m + 1) by lia.
    rewrite !(mulPointEscalar_succ L G HC) by (assumption || lia).
    rewrite IH. apply (addPoint_assoc L G HC); auto using valid_mul.
Qed.

Lemma mul_neutral n : 0 <= n -> mul (0, 1) n = (0, 1).
Proof.
  pose proof (valid_neutral L G HC) as HO.
  revert n. apply natlike_ind.
  - now apply (mulPointEscalar_0 L G HC).
  - intros n Hn IH. unfold Z.succ.
    rewrite (mulPointEscalar_succ L G HC), IH by assumption.
    now apply (addPoint_neutral L G HC).
Qed.

Lemma mul_mul P n m : G P -> 0 <= n -> 0 <= m -> mul (mul P n) m = mul P (n * m).
Proof.
  intros HP Hn Hm. revert m Hm. apply natlike_ind.
  - rewrite Z.mul_0_r. rewrite !(mulPointEscalar_0 L G HC); auto using valid_mul.
  - intros m Hm IH. unfold Z.succ.
    rewrite (mulPointEscalar_succ L G HC), IH by auto using valid_mul.
    rewrite <- mul_add by (assumption || nia).
    f_equal. lia.
Qed.

(** Scalars of the base point count modulo the subgroup order. *)
Lemma mul_Base8_mod n : 0 <= n -> mul B (n mod l) = mul B n.
Proof.
  intros Hn.
  pose proof (subOrder_pos L G HC) as Hl.
  pose proof (valid_Base8 L G HC) as HB.
  pose proof (Z.mod_pos_bound n l Hl) as Hr.
  assert (0 <= n / l) as Hq by (apply Z.div_pos; lia).
  rewrite (Z.div_mod n l) at 2 by lia.
  rewrite mul_add by (assumption || nia).
  rewrite <- mul_mul by (assumption || lia).
  rewrite (Base8_order L G HC), mul_neutral by exact Hq.
  rewrite (addPoint_neutral L G HC) by now apply valid_mul.
  reflexivity.
Qed.

(** The verification equation holds for a response computed as in
    [signMessage] from a secret that is a multiple of the cofactor. *)
Lemma verification_equation (s r hm : Z) :
  0 <= s -> s mod 8 = 0 -> 0 <= r -> 0 <= hm ->
  mul B (F1Field.add l r (F1Field.mul l hm s)) =
  add (mul B r) (mul (mul B (scalar.shiftRight s 3)) (scalar.mul hm 8)).
Proof.
  intros Hs Hs8 Hr Hhm.
  pose proof (subOrder_pos L G HC) as Hl.
  pose proof (valid_Base8 L G HC) as HB.
  unfold F1Field.add, F1Field.mul, scalar.shiftRight, scalar.mul.
  pose proof (Z.mod_pos_bound (hm * s) l Hl) as Hm.
  rewrite Z.shiftr_div_pow2 by lia. change (2 ^ 3) with 8.
  assert (0 <= s / 8) as Hq by (apply Z.div_pos; lia).
  rewrite mul_Base8_mod by lia.
  rewrite mul_add by (assumption || lia).
  rewrite mul_Base8_mod by nia.
  rewrite mul_mul by (assumption || lia).
  do 2 f_equal.
  rewrite (Z.div_mod s 8) at 1 by lia. rewrite Hs8. lia.
Qed.

End Group.
(** ** [verifySignature]: the guard, then the message, then the equation *)

Lemma toPoint_valid (p : Point BigNumber) :
  isPoint p = true -> toPoint p = Ok (pointValue p).
Proof.
  unfold isPoint, toPoint, pointValue. intros H.
  apply andb_true_iff in H as [H1 H2].
  now rewrite (isBigNumber_BigInt _ H1), (isBigNumber_BigInt _ H2).
Qed.

Lemma verifySignature_unfold (L : Lib) (message : BigNumberish)
    (signature : Signature BigNumber) (publicKey : Point BigNumber) :
  V2.verifySignature L message signature publicKey =
  if rejects L signature publicKey then Ok false
  else match checkMessage L message with
       | Ok m => Ok (verdict L m signature publicKey)
       | Throw e => Throw e
       end.
Proof.
  unfold V2.verifySignature, rejects.
  destruct (isPoint publicKey) eqn:Hpk; [|reflexivity].
  destruct (isSignature signature) eqn:Hsig; [|reflexivity].
  pose proof Hsig as Hsig'. unfold isSignature in Hsig'.
  apply andb_true_iff in Hsig' as [HR8 HS].
  pose proof HR8 as HR8'. unfold isPoint in HR8'. apply andb_true_iff in HR8' as [HR8x HR8y].
  pose proof Hpk as Hpk'. unfold isPoint in Hpk'. apply andb_true_iff in Hpk' as [Hpkx Hpky].
  unfold inCurve_bn, poseidon5_bn.
  rewrite (toPoint_valid _ HR8), (toPoint_valid _ Hpk).
  cbn [mapM].
  rewrite (isBigNumber_BigInt _ HS), (isBigNumber_BigInt _ HR8x), (isBigNumber_BigInt _ HR8y),
    (isBigNumber_BigInt _ Hpkx), (isBigNumber_BigInt _ Hpky).
  unfold orElse. cbn.
  destruct (inCurve L (pointValue (R8 signature))); [|reflexivity].
  destruct (inCurve L (pointValue publicKey)); [|reflexivity].
  destruct (subOrder L <=? valueOf (S signature)); [reflexivity|].
  cbn. destruct (checkMessage L message) as [m|e]; reflexivity.
Qed.

Lemma signMessage_unfold (L : Lib) (k m : BigNumberish) (kb : Buffer) (mz : Z) :
  checkPrivateKey L k = Ok kb -> checkMessage L m = Ok mz ->
  V2.signMessage L k m =
  Ok {| R8 := point_map toString (t_R8 (V2.signTrace L kb mz));
        S := toString (t_S (V2.signTrace L kb mz)) |}.
Proof. intros Hk Hm. unfold V2.signMessage. rewrite Hk. cbn. rewrite Hm. reflexivity. Qed.

Lemma deriveSecretScalar_unfold (L : Lib) (k : BigNumberish) (kb : Buffer) :
  checkPrivateKey L k = Ok kb ->
  V2.deriveSecretScalar L k =
  Ok (toString (Z.shiftr (leBufferToBigInt (pruneBuffer (slice 0 32 (blake L kb)))) 3)).
Proof. intros Hk. unfold V2.deriveSecretScalar. rewrite Hk. reflexivity. Qed.

Lemma derivePublicKey_unfold (L : Lib) (k : BigNumberish) (kb : Buffer) :
  checkPrivateKey L k = Ok kb ->
  V2.derivePublicKey L k =
  Ok (point_map toString
        (mulPointEscalar L (Base8 L)
           (Z.shiftr (leBufferToBigInt (pruneBuffer (slice 0 32 (blake L kb)))) 3))).
Proof.
  intros Hk. unfold V2.derivePublicKey.
  rewrite (deriveSecretScalar_unfold L k kb Hk). cbn [mbind Outcome_bind].
  rewrite BigInt_toString. reflexivity.
Qed.

Lemma pointValue_toString (P : Point Z) :
  pointValue (point_map BNstring (point_map toString P)) = P.
Proof.
  destruct P as [x y]. unfold pointValue, point_map. cbn [fst snd].
  now rewrite !valueOf_toString.
Qed.

Lemma isPoint_toString (P : Point Z) :
  isPoint (point_map BNstring (point_map toString P)) = true.
Proof.
  unfold isPoint, point_map. cbn [fst snd]. now rewrite !isBigNumber_toString.
Qed.

(** ** The older variant and its helpers *)

(** [V1] is the older variant over the helpers of the newer one. *)
Lemma V1_is_Older (L : Lib) (k m : BigNumberish) (sig : Signature BigNumber)
    (pk : Point BigNumber) :
  V1.deriveSecretScalar L k = Older.deriveSecretScalar L (newer_helpers L) k /\
  V1.derivePublicKey L k = Older.derivePublicKey L (newer_helpers L) k /\
  V1.signMessage L k m = Older.signMessage L (newer_helpers L) k m /\
  V1.verifySignature L m sig pk = Older.verifySignature L (newer_helpers L) m sig pk.
Proof. repeat split; reflexivity. Qed.

Lemma newer_helpers_agree (L : Lib) : helpers_agree L (newer_helpers L).
Proof. constructor; reflexivity. Qed.

Lemma toy_older_helpers_agree : helpers_agree Toy.lib Toy.older_helpers.
Proof.
  constructor; try reflexivity; cbn.
  - intros a b. unfold F1Field.eq. destruct (Z.eq_dec a b) as [->|Hab].
    + now rewrite Z.eqb_refl.
    + symmetry. now apply Z.eqb_neq.
  - intros order a b. unfold F1Field.add. symmetry. apply Zplus_mod.
  - intros order a b. unfold F1Field.mul. symmetry. apply Zmult_mod.
  - intros a b. unfold scalar.mul. apply Z.mul_comm.
Qed.

Lemma Older_signTrace_agree (L : Lib) (O : OlderHelpers) (HO : helpers_agree L O)
    (kb : Buffer) (mz : Z) :
  Older.signTrace L O kb mz = V2.signTrace L kb mz.
Proof.
  unfold Older.signTrace, V2.signTrace. cbv zeta.
  rewrite (agree_Base8 L O HO), (agree_subOrder L O HO).
  rewrite !(agree_mulPointEscalar L O HO), !(agree_Field_e L O HO),
    !(agree_Field_add L O HO), !(agree_Field_mul L O HO), !(agree_shiftRight L O HO),
    !(agree_leBuff2int L O HO), !(agree_leInt2Buff L O HO).
  reflexivity.
Qed.

Lemma Older_verifySignature_agree (L : Lib) (O : OlderHelpers) (HO : helpers_agree L O)
    (m : BigNumberish) (sig : Signature BigNumber) (pk : Point BigNumber) :
  Older.verifySignature L O m sig pk = V2.verifySignature L m sig pk.
Proof.
  rewrite verifySignature_unfold. unfold Older.verifySignature, rejects, verdict.
  destruct (isPoint pk) eqn:Hpk; [|reflexivity].
  destruct (isSignature sig) eqn:Hsig; [|reflexivity].
  pose proof Hsig as Hsig'. unfold isSignature in Hsig'.
  apply andb_true_iff in Hsig' as [HR8 HS].
  pose proof HR8 as HR8'. unfold isPoint in HR8'. apply andb_true_iff in HR8' as [HR8x HR8y].
  pose proof Hpk as Hpk'. unfold isPoint in Hpk'. apply andb_true_iff in Hpk' as [Hpkx Hpky].
  unfold Older.inCurve_bn, poseidon5_bn.
  rewrite (toPoint_valid _ HR8), (toPoint_valid _ Hpk).
  cbn [mapM].
  rewrite (isBigNumber_BigInt _ HS), (isBigNumber_BigInt _ HR8x), (isBigNumber_BigInt _ HR8y),
    (isBigNumber_BigInt _ Hpkx), (isBigNumber_BigInt _ Hpky).
  unfold orElse. cbn.
  rewrite !(agree_inCurve L O HO), (agree_subOrder L O HO).
  destruct (inCurve L (pointValue (R8 sig))); [|reflexivity].
  destruct (inCurve L (pointValue pk)); [|reflexivity].
  destruct (subOrder L <=? valueOf (S sig)); [reflexivity|].
  cbn. destruct (checkMessage L m) as [mz|e]; [|reflexivity].
  cbn.
  rewrite (agree_Base8 L O HO), (agree_mul L O HO), !(agree_mulPointEscalar L O HO),
    (agree_addPoint L O HO), !(agree_Fr_eq L O HO).
  reflexivity.
Qed.

(** ** The claims *)

(** C1. Round trip: for every private key accepted by [checkPrivateKey] and
    every message accepted by [checkMessage], the signature made by
    [signMessage] verifies under the key made by [derivePublicKey]:
    [verifySignature(m, signMessage(k, m), derivePublicKey(k))] returns
    [true]. *)
Theorem sign_then_verify (L : Lib) (G : Point Z -> Prop) (HC : Contract L G)
    (k m : BigNumberish) (kb : Buffer) (mz : Z) :
  checkPrivateKey L k = Ok kb ->
  checkMessage L m = Ok mz ->
  exists sig pk,
    V2.signMessage L k m = Ok sig /\
    V2.derivePublicKey L k = Ok pk /\
    V2.verifySignature L m (signature_map BNstring sig) (point_map BNstring pk) = Ok true.
Proof.
  intros Hk Hm.
  eexists _, _. split; [exact (signMessage_unfold L k m kb mz Hk Hm)|].
  split; [exact (derivePublicKey_unfold L k kb Hk)|].
  pose proof (subOrder_pos L G HC) as Hl.
  pose proof (valid_Base8 L G HC) as HB.
  pose proof (pruned_scalar_range (slice 0 32 (blake L kb))
                (slice_low_length _ (blake_length L G HC kb))) as [[Hs _] Hs8].
  set (t := V2.signTrace L kb mz).
  assert (0 <= t_s t) as Hs0 by (subst t; cbn [V2.signTrace t_s]; lia).
  assert (0 <= t_r t) as Hr.
  { subst t. cbn [V2.signTrace t_r]. unfold F1Field.e. apply Z.mod_pos_bound, Hl. }
  assert (0 <= t_S t < subOrder L) as HS.
  { subst t. cbn [V2.signTrace t_S]. unfold F1Field.add. apply Z.mod_pos_bound, Hl. }
  assert (G (t_R8 t)) as HR8 by (subst t; cbn [V2.signTrace t_R8]; now apply (valid_mul L G HC)).
  assert (G (t_A t)) as HA.
  { subst t. cbn [V2.signTrace t_A]. apply (valid_mul L G HC); [exact HB|].
    apply Z.shiftr_nonneg. lia. }
  rewrite verifySignature_unfold. unfold rejects, verdict, signature_map.
  cbn [R8 S]. rewrite !isPoint_toString.
  unfold isSignature. cbn [R8 S].
  rewrite !isPoint_toString, !pointValue_toString, isBigNumber_toString, valueOf_toString.
  rewrite (valid_inCurve L G HC _ HR8).
  change (mulPointEscalar L (Base8 L) (Z.shiftr _ 3)) with (t_A t).
  rewrite (valid_inCurve L G HC _ HA).
  replace (subOrder L <=? t_S t) with false by (symmetry; apply Z.leb_gt; lia).
  cbn [negb orb]. rewrite Hm.
  change (poseidon5 L [(t_R8 t).1; (t_R8 t).2; (t_A t).1; (t_A t).2; mz]) with (t_hm t).
  assert (mulPointEscalar L (Base8 L) (t_S t) =
          addPoint L (t_R8 t) (mulPointEscalar L (t_A t) (t_hm t * 8))) as ->.
  { exact (verification_equation L G HC (t_s t) (t_r t) (t_hm t) Hs0 Hs8 Hr
             (poseidon5_nonneg L G HC _)). }
  now rewrite !Z.eqb_refl.
Qed.

(** C2 (amended). [verifySignature], in both variants, absorbs into [false],
    without raising and whatever the message, every signature and public key
    that its guard rejects: a coordinate or an [S] that is no big number, an
    [R8] or a public key off the curve, an [S] of at least [subOrder].  Once
    signature and public key have passed the guard, a message that
    [checkMessage] rejects makes it raise the error of [checkMessage], and a
    message that [checkMessage] accepts makes it return the boolean of the
    verification equation.  It returns a boolean whenever [checkMessage]
    accepts the message, and it raises no other error than the one of
    [checkMessage].  The older variant does the same over any helpers that
    compute what the newer ones do. *)
Theorem verifySignature_raises_only_for_message (L : Lib) (m : BigNumberish)
    (sig : Signature BigNumber) (pk : Point BigNumber) :
  V1.verifySignature L m sig pk = V2.verifySignature L m sig pk /\
  (forall O, helpers_agree L O ->
             Older.verifySignature L O m sig pk = V2.verifySignature L m sig pk) /\
  (rejects L sig pk = true -> V2.verifySignature L m sig pk = Ok false) /\
  (rejects L sig pk = false ->
   forall e, checkMessage L m = Throw e -> V2.verifySignature L m sig pk = Throw e) /\
  (rejects L sig pk = false ->
   forall mz, checkMessage L m = Ok mz ->
              V2.verifySignature L m sig pk = Ok (verdict L mz sig pk)) /\
  (forall mz, checkMessage L m = Ok mz -> exists b, V2.verifySignature L m sig pk = Ok b) /\
  (forall e, V2.verifySignature L m sig pk = Throw e ->
             rejects L sig pk = false /\ checkMessage L m = Throw e).
Proof.
  split; [reflexivity|].
  split; [intros O HO; exact (Older_verifySignature_agree L O HO m sig pk)|].
  rewrite verifySignature_unfold.
  split; [now intros ->|].
  split; [now intros -> e ->|].
  split; [now intros -> mz ->|].
  split.
  - intros mz ->. destruct (rejects L sig pk); eauto.
  - intros e He. destruct (rejects L sig pk); [discriminate|].
    split; [reflexivity|]. destruct (checkMessage L m); congruence.
Qed.

(** C3. The guard of [verifySignature] has no lower bound on [S]: a
    well-formed signature whose [S] is negative, with its [R8] and the public
    key on the curve, is not rejected.  [verifySignature] then goes on as for
    any signature that passes the guard, in both variants: it raises the
    error of [checkMessage] when the message is rejected, and otherwise hands
    the negative [S] to [mulPointEscalar] and returns the boolean of the
    verification equation, where the claim has it return [false]. *)
Theorem verifySignature_negative_S_not_rejected (L : Lib) (m : BigNumberish)
    (sig : Signature BigNumber) (pk : Point BigNumber) :
  0 < subOrder L ->
  isPoint pk = true ->
  isSignature sig = true ->
  inCurve L (pointValue (R8 sig)) = true ->
  inCurve L (pointValue pk) = true ->
  valueOf (S sig) < 0 ->
  rejects L sig pk = false /\
  V2.verifySignature L m sig pk =
    match checkMessage L m with
    | Ok mz => Ok (verdict L mz sig pk)
    | Throw e => Throw e
    end /\
  V1.verifySignature L m sig pk = V2.verifySignature L m sig pk.
Proof.
  intros Hl Hpk Hsig HR8 HA HS.
  assert (rejects L sig pk = false) as Hrej.
  { unfold rejects. rewrite Hpk, Hsig, HR8, HA. cbn [negb orb].
    apply Z.leb_gt. lia. }
  split; [exact Hrej|]. split; [|reflexivity].
  rewrite verifySignature_unfold, Hrej. reflexivity.
Qed.

(** X16. The upper bound of the guard: for every well-formed signature whose
    [S] is at least [subOrder], [verifySignature] returns [false] without
    raising an error, whatever the message and the public key, in both
    variants. *)
Theorem verifySignature_rejects_large_S (L : Lib) (m : BigNumberish)
    (sig : Signature BigNumber) (pk : Point BigNumber) (s : Z) :
  isSignature sig = true ->
  BigInt (S sig) = Ok s ->
  subOrder L <= s ->
  V2.verifySignature L m sig pk = Ok false /\
  V1.verifySignature L m sig pk = Ok false.
Proof.
  intros _ HS Hs.
  change (V1.verifySignature L m sig pk) with (V2.verifySignature L m sig pk).
  enough (V2.verifySignature L m sig pk = Ok false) by auto.
  rewrite verifySignature_unfold.
  replace (rejects L sig pk) with true; [reflexivity|].
  unfold rejects, valueOf. rewrite HS.
  replace (subOrder L <=? s) with true by (symmetry; apply Z.leb_le; exact Hs).
  now rewrite orb_true_r.
Qed.

(** C4 (amended). For every valid private key, [deriveSecretScalar] of the
    newer variant returns (as a decimal string) the value obtained by hashing
    the key to a 64-byte digest, pruning its low 32 bytes (lowest 3 bits of
    the first byte cleared, top bit of the last byte cleared, second-highest
    bit of the last byte set), reading them as a little-endian integer and
    shifting it right by 3 bits; [deriveSecretScalar] of the older variant
    returns that little-endian integer without the shift. *)
Theorem deriveSecretScalar_as_specified (L : Lib) (k : BigNumberish) (kb : Buffer) :
  checkPrivateKey L k = Ok kb ->
  length (blake L kb) = 64%nat ->
  V2.deriveSecretScalar L k = Ok (toString (secret_scalar_spec (blake L kb))) /\
  V1.deriveSecretScalar L k = Ok (leBufferToBigInt (prune_spec (take 32 (blake L kb)))).
Proof.
  intros Hk Hlen. split.
  - rewrite (deriveSecretScalar_unfold L k kb Hk).
    unfold secret_scalar_spec.
    rewrite pruneBuffer_prune_spec by (apply slice_low_length, Hlen).
    reflexivity.
  - unfold V1.deriveSecretScalar, V1.leBuff2int. rewrite Hk.
    cbn [mbind Outcome_bind mret Outcome_ret].
    rewrite pruneBuffer_prune_spec by (apply slice_low_length, Hlen).
    reflexivity.
Qed.

(** C5. For every valid private key and message, the nonce [r] of
    [signMessage] is the hash of the high 32 bytes of the private-key digest
    followed by the message as a fixed-width little-endian buffer, reduced
    modulo the subgroup order, in both variants; the commitment [R8] of the
    signature is [Base8] multiplied by it. *)
Theorem signMessage_nonce (L : Lib) (k m : BigNumberish) (kb : Buffer) (mz : Z) :
  checkPrivateKey L k = Ok kb ->
  checkMessage L m = Ok mz ->
  length (blake L kb) = 64%nat ->
  t_r (V2.signTrace L kb mz) = nonce_spec L kb mz /\
  t_r (V1.signTrace L kb mz) = nonce_spec L kb mz /\
  exists sig,
    V2.signMessage L k m = Ok sig /\
    V1.signMessage L k m = Ok sig /\
    R8 sig = point_map toString (mulPointEscalar L (Base8 L) (nonce_spec L kb mz)).
Proof.
  intros Hk Hm Hlen.
  assert (t_r (V2.signTrace L kb mz) = nonce_spec L kb mz) as Hr.
  { cbn [V2.signTrace t_r]. unfold nonce_spec, F1Field.e.
    now rewrite (slice_high_drop _ Hlen). }
  split; [exact Hr|]. split; [exact Hr|].
  eexists. split; [exact (signMessage_unfold L k m kb mz Hk Hm)|].
  change (V1.signMessage L k m) with (V2.signMessage L k m). split; [exact (signMessage_unfold L k m kb mz Hk Hm)|].
  cbn [R8]. rewrite <- Hr. reflexivity.
Qed.

(** C6. For every valid private key [k] and message [m], the public point [A]
    recomputed inside [signMessage(k, m)] is the point [derivePublicKey(k)]
    returns. *)
Theorem derivePublicKey_is_signing_point (L : Lib) (k m : BigNumberish)
    (kb : Buffer) (mz : Z) :
  checkPrivateKey L k = Ok kb ->
  checkMessage L m = Ok mz ->
  let t := V2.signTrace L kb mz in
  V2.signMessage L k m =
    Ok {| R8 := point_map toString (t_R8 t); S := toString (t_S t) |} /\
  V2.derivePublicKey L k = Ok (point_map toString (t_A t)).
Proof.
  intros Hk Hm t. split.
  - exact (signMessage_unfold L k m kb mz Hk Hm).
  - exact (derivePublicKey_unfold L k kb Hk).
Qed.

(** C9. For every valid private key and message, the [S] of the signature
    returned by [signMessage] (in both variants) satisfies
    [0 <= S < subOrder], so that the range test on [S] in the guard of
    [verifySignature] does not reject it. *)
Theorem signMessage_S_in_range (L : Lib) (k m : BigNumberish) (kb : Buffer) (mz : Z) :
  0 < subOrder L ->
  checkPrivateKey L k = Ok kb ->
  checkMessage L m = Ok mz ->
  exists sig s,
    V2.signMessage L k m = Ok sig /\
    V1.signMessage L k m = Ok sig /\
    S sig = toString s /\
    0 <= s < subOrder L /\
    (s' ← BigInt (BNstring (S sig)); mret (subOrder L <=? s')) = Ok false.
Proof.
  intros Hl Hk Hm.
  eexists _, _. split; [exact (signMessage_unfold L k m kb mz Hk Hm)|].
  split; [exact (signMessage_unfold L k m kb mz Hk Hm)|].
  cbn [S]. split; [reflexivity|].
  assert (0 <= t_S (V2.signTrace L kb mz) < subOrder L) as HS.
  { cbn [V2.signTrace t_S]. unfold F1Field.add. apply Z.mod_pos_bound, Hl. }
  split; [exact HS|].
  rewrite BigInt_toString. cbn [mbind mret Outcome_bind Outcome_ret].
  f_equal. apply Z.leb_gt. lia.
Qed.

(** C10. For every valid private key, the secret scalar returned by
    [deriveSecretScalar] lies in [[2^251, 2^252)]: it is the right shift by 3
    of the pruned integer used by [signMessage], which lies in
    [[2^254, 2^255)] and is a multiple of 8. *)
Theorem secret_scalar_range (L : Lib) (k : BigNumberish) (kb : Buffer) :
  checkPrivateKey L k = Ok kb ->
  length (blake L kb) = 64%nat ->
  exists z,
    V2.deriveSecretScalar L k = Ok (toString z) /\
    2 ^ 251 <= z < 2 ^ 252 /\
    forall mz, let s := t_s (V2.signTrace L kb mz) in
      2 ^ 254 <= s < 2 ^ 255 /\ s mod 8 = 0 /\ z = Z.shiftr s 3 /\ s = 8 * z.
Proof.
  intros Hk Hlen.
  eexists. split; [exact (deriveSecretScalar_unfold L k kb Hk)|].
  pose proof (pruned_scalar_range (slice 0 32 (blake L kb)) (slice_low_length _ Hlen))
    as [Hs Hs8].
  cbv zeta in Hs, Hs8.
  set (s := leBufferToBigInt (pruneBuffer (slice 0 32 (blake L kb)))) in *.
  assert (s = 8 * Z.shiftr s 3) as Hs3.
  { rewrite Z.shiftr_div_pow2 by lia. change (2 ^ 3) with 8.
    pose proof (Z.div_mod s 8 ltac:(lia)) as Hdiv. rewrite Hs8 in Hdiv. lia. }
  split.
  - change (2 ^ 251) with (2 ^ 254 / 8). change (2 ^ 252) with (2 ^ 255 / 8).
    change (2 ^ 254) with (8 * 2 ^ 251) in Hs. change (2 ^ 255) with (8 * 2 ^ 252) in Hs.
    change (2 ^ 254 / 8) with (2 ^ 251). change (2 ^ 255 / 8) with (2 ^ 252).
    lia.
  - intros mz. cbn [V2.signTrace t_s]. fold s. cbv zeta. auto.
Qed.

Lemma toPoint_Ok (P : Point BigNumber) (Pz : Point Z) :
  toPoint P = Ok Pz -> isPoint P = true /\ pointValue P = Pz.
Proof.
  unfold toPoint, isPoint, pointValue, valueOf, isBigNumber, isStringifiedBigint.
  destruct P as [[x|x] [y|y]]; cbn [fst snd BigInt mbind Outcome_bind mret Outcome_ret];
    repeat match goal with
      | |- context [StringToBigInt ?s] => destruct (StringToBigInt s)
      end; cbn; intros H; inversion H; auto.
Qed.

(** C7. For every valid in-curve point [P], [unpackPublicKey(packPublicKey(P))]
    is [P] coordinate by coordinate (each coordinate comes back as the decimal
    string of its value), and [packPublicKey] fails for every input that is
    not a well-formed in-curve point. *)
Theorem pack_then_unpack (L : Lib) (G : Point Z -> Prop) (HC : Contract L G) :
  (forall (P : Point BigNumber) (Pz : Point Z),
      toPoint P = Ok Pz -> G Pz ->
      exists packed Q,
        V2.packPublicKey L P = Ok packed /\
        V2.unpackPublicKey L (BNstring packed) = Ok Q /\
        Q = point_map toString Pz /\
        toPoint (point_map BNstring Q) = toPoint P) /\
  (forall P : Point BigNumber,
      validPublicKey L P = false ->
      V2.packPublicKey L P = Throw (JsError "Invalid public key")).
Proof.
  split.
  - intros P Pz HP HG.
    destruct (toPoint_Ok P Pz HP) as [Hwf Hval].
    exists (toString (packPoint L Pz)), (point_map toString Pz).
    split; [|split; [|split]].
    + unfold V2.packPublicKey, inCurve_bn. rewrite Hwf, HP.
      cbn [negb orElse fmap Outcome_fmap mbind Outcome_bind].
      rewrite (valid_inCurve L G HC Pz HG). cbn [negb].
      unfold toPoint in HP.
      destruct (BigInt P.1) as [x|]; [|discriminate].
      destruct (BigInt P.2) as [y|]; [|discriminate].
      cbn in HP. injection HP as <-. reflexivity.
    + unfold V2.unpackPublicKey, isStringifiedBigint.
      rewrite StringToBigInt_toString, BigInt_toString.
      cbn [negb andb mbind Outcome_bind].
      now rewrite (unpack_pack L G HC Pz HG).
    + reflexivity.
    + rewrite HP, toPoint_valid by apply isPoint_toString.
      now rewrite pointValue_toString.
  - intros P HP. unfold validPublicKey in HP. unfold V2.packPublicKey, inCurve_bn.
    destruct (isPoint P) eqn:Hwf; [|reflexivity].
    rewrite (toPoint_valid P Hwf). cbn in HP |- *. now rewrite HP.
Qed.

(** C8 (amended). Provided the helpers the older variant takes from its local
    modules ([./babyjub], [./field], [./scalar], and [leBuff2int] and
    [leInt2Buff] of [./utils]) compute what their counterparts in the newer
    variant do, the two variants agree on [derivePublicKey], [signMessage]
    and [verifySignature] for every input; the newer [deriveSecretScalar]
    returns, as a decimal string, the value of the older one shifted right by
    3 bits. *)
Theorem variants_agree (L : Lib) (O : OlderHelpers) (k m : BigNumberish)
    (sig : Signature BigNumber) (pk : Point BigNumber) :
  helpers_agree L O ->
  Older.derivePublicKey L O k = V2.derivePublicKey L k /\
  Older.signMessage L O k m = V2.signMessage L k m /\
  Older.verifySignature L O m sig pk = V2.verifySignature L m sig pk /\
  V2.deriveSecretScalar L k =
    (fun s => toString (Z.shiftr s 3)) <$> Older.deriveSecretScalar L O k.
Proof.
  intros HO.
  split; [|split; [|split; [exact (Older_verifySignature_agree L O HO m sig pk)|]]].
  - unfold Older.derivePublicKey, V2.derivePublicKey, Older.deriveSecretScalar,
      V2.deriveSecretScalar.
    destruct (checkPrivateKey L k) as [kb|e]; [|reflexivity].
    cbn [mbind Outcome_bind mret Outcome_ret].
    rewrite BigInt_toString, (agree_Base8 L O HO), (agree_mulPointEscalar L O HO),
      (agree_shiftRight L O HO), (agree_leBuff2int L O HO).
    reflexivity.
  - unfold Older.signMessage, V2.signMessage.
    destruct (checkPrivateKey L k) as [kb|e]; [|reflexivity].
    cbn [mbind Outcome_bind]. destruct (checkMessage L m) as [mz|e]; [|reflexivity].
    cbn [mbind Outcome_bind]. now rewrite (Older_signTrace_agree L O HO).
  - unfold Older.deriveSecretScalar, V2.deriveSecretScalar.
    destruct (checkPrivateKey L k) as [kb|e]; [|reflexivity].
    cbn. now rewrite (agree_leBuff2int L O HO).
Qed.

(** ** The small library meets the contract *)

Lemma toy_points_complete (P : Point Z) : Toy.inCurve P = true -> P ∈ Toy.points.
Proof.
  intros HP. unfold Toy.points. apply list_elem_of_filter. split; [exact HP|].
  destruct P as [x y]. unfold Toy.inCurve in HP. cbn [fst snd] in HP.
  repeat (apply andb_true_iff in HP as [HP ?]).
  apply list_elem_of_bind. exists x. split.
  - apply list_elem_of_fmap. exists y. split; [reflexivity|].
    apply elem_of_seqZ. unfold Toy.p in *. lia.
  - apply elem_of_seqZ. unfold Toy.p in *. lia.
Qed.

Lemma toy_points_forall (f : Point Z -> bool) :
  forallb f Toy.points = true -> forall P, Toy.inCurve P = true -> f P = true.
Proof.
  intros Hall P HP. rewrite forallb_forall in Hall.
  apply Hall, list_elem_of_In, toy_points_complete, HP.
Qed.

Lemma toy_point_eqb_eq (P Q : Point Z) : Toy.point_eqb P Q = true -> P = Q.
Proof.
  destruct P, Q. unfold Toy.point_eqb. cbn [fst snd]. intros H.
  apply andb_true_iff in H as [H1 H2].
  apply Z.eqb_eq in H1, H2. now subst.
Qed.

(** Every point of the curve is a multiple of the generator. *)
Lemma toy_valid_entry (P : Point Z) :
  Toy.valid P -> exists i, (i < 40)%nat /\ Toy.entry i = P.
Proof.
  intros HP.
  assert (existsb (fun i => Toy.point_eqb (Toy.entry i) P) (seq 0 40) = true) as H.
  { revert P HP.
    apply (toy_points_forall
             (fun P => existsb (fun i => Toy.point_eqb (Toy.entry i) P) (seq 0 40))).
    vm_cast_no_check (eq_refl true). }
  apply existsb_exists in H as (i & Hi & Heq).
  exists i. apply in_seq in Hi. split; [lia | now apply toy_point_eqb_eq].
Qed.

Lemma toy_entry_valid (i : nat) : (i < 40)%nat -> Toy.valid (Toy.entry i).
Proof.
  intros Hi.
  assert (forallb (fun i => Toy.inCurve (Toy.entry i)) (seq 0 40) = true) as H
    by (vm_cast_no_check (eq_refl true)).
  rewrite forallb_forall in H. apply H, in_seq. lia.
Qed.

(** Adding two multiples of the generator adds their indices modulo 40. *)
Lemma toy_entry_add (i j : nat) :
  (i < 40)%nat -> (j < 40)%nat ->
  Toy.addPoint (Toy.entry i) (Toy.entry j) = Toy.entry ((i + j) mod 40).
Proof.
  intros Hi Hj.
  assert (forallb (fun i => forallb (fun j =>
            Toy.point_eqb (Toy.addPoint (Toy.entry i) (Toy.entry j))
                          (Toy.entry ((i + j) mod 40))) (seq 0 40)) (seq 0 40) = true) as H
    by (vm_cast_no_check (eq_refl true)).
  rewrite forallb_forall in H.
  specialize (H i ltac:(apply in_seq; lia)). cbv beta in H.
  rewrite forallb_forall in H.
  apply toy_point_eqb_eq, H, in_seq. lia.
Qed.

Lemma toy_valid_addPoint (P Q : Point Z) :
  Toy.valid P -> Toy.valid Q -> Toy.valid (Toy.addPoint P Q).
Proof.
  intros HP HQ.
  destruct (toy_valid_entry P HP) as (i & Hi & <-).
  destruct (toy_valid_entry Q HQ) as (j & Hj & <-).
  rewrite toy_entry_add by assumption.
  apply toy_entry_valid, Nat.mod_upper_bound. lia.
Qed.

Lemma toy_addPoint_neutral (P : Point Z) :
  Toy.valid P -> Toy.addPoint (0, 1) P = P /\ Toy.addPoint P (0, 1) = P.
Proof.
  intros HP. destruct (toy_valid_entry P HP) as (i & Hi & <-).
  change (0, 1) with (Toy.entry 0).
  rewrite !toy_entry_add by lia.
  rewrite Nat.add_0_r, Nat.add_0_l, Nat.mod_small by lia. split; reflexivity.
Qed.

Lemma toy_addPoint_assoc (P Q R : Point Z) :
  Toy.valid P -> Toy.valid Q -> Toy.valid R ->
  Toy.addPoint P (Toy.addPoint Q R) = Toy.addPoint (Toy.addPoint P Q) R.
Proof.
  intros HP HQ HR.
  destruct (toy_valid_entry P HP) as (i & Hi & <-).
  destruct (toy_valid_entry Q HQ) as (j & Hj & <-).
  destruct (toy_valid_entry R HR) as (k & Hk & <-).
  rewrite !toy_entry_add by (assumption || (apply Nat.mod_upper_bound; lia)).
  f_equal.
  rewrite Nat.Div0.add_mod_idemp_r, Nat.Div0.add_mod_idemp_l. f_equal. lia.
Qed.

Lemma toy_valid_iter_op (n : positive) (P : Point Z) :
  Toy.valid P -> Toy.valid (Pos.iter_op Toy.addPoint n P).
Proof.
  revert P. induction n as [n IH|n IH|]; intros P HP; cbn [Pos.iter_op].
  - apply toy_valid_addPoint; [exact HP|]. apply IH. now apply toy_valid_addPoint.
  - apply IH. now apply toy_valid_addPoint.
  - exact HP.
Qed.

(** The loop adds to [res] the iterated sum of [exp]. *)
Lemma toy_mul_loop_sum (rem : positive) (res exp : Point Z) :
  Toy.valid res -> Toy.valid exp ->
  Toy.mul_loop res exp rem = Toy.addPoint res (Pos.iter_op Toy.addPoint rem exp).
Proof.
  revert res exp. induction rem as [n IH|n IH|]; intros res exp Hres Hexp;
    cbn [Toy.mul_loop Pos.iter_op].
  - rewrite IH by auto using toy_valid_addPoint.
    symmetry. apply toy_addPoint_assoc; auto using toy_valid_iter_op, toy_valid_addPoint.
  - apply IH; auto using toy_valid_addPoint.
  - reflexivity.
Qed.

Lemma toy_iter_op_succ (n : positive) (P : Point Z) :
  Toy.valid P ->
  Pos.iter_op Toy.addPoint (Pos.succ n) P = Toy.addPoint P (Pos.iter_op Toy.addPoint n P).
Proof.
  revert P. induction n as [n IH|n IH|]; intros P HP.
  - change (Pos.iter_op Toy.addPoint (Pos.succ n~1) P)
      with (Pos.iter_op Toy.addPoint (Pos.succ n) (Toy.addPoint P P)).
    cbn [Pos.iter_op].
    rewrite IH by now apply toy_valid_addPoint.
    symmetry. apply toy_addPoint_assoc; auto using toy_valid_iter_op, toy_valid_addPoint.
  - reflexivity.
  - reflexivity.
Qed.

Lemma toy_mulPointEscalar_succ (P : Point Z) (n : Z) :
  Toy.valid P -> 0 <= n ->
  Toy.mulPointEscalar P (n + 1) = Toy.addPoint P (Toy.mulPointEscalar P n).
Proof.
  intros HP Hn.
  assert (Toy.valid (0, 1)) as HO by reflexivity.
  destruct n as [|q|q]; [| |lia].
  - change (Toy.mulPointEscalar P (0 + 1)) with (Toy.addPoint (0, 1) P).
    change (Toy.mulPointEscalar P 0) with (0, 1).
    destruct (toy_addPoint_neutral P HP) as [-> ->]. reflexivity.
  - replace (Z.pos q + 1) with (Z.pos (Pos.succ q)) by lia.
    cbn [Toy.mulPointEscalar].
    rewrite !toy_mul_loop_sum by assumption.
    rewrite toy_iter_op_succ by exact HP.
    destruct (toy_addPoint_neutral (Pos.iter_op Toy.addPoint q P)) as [-> _];
      [now apply toy_valid_iter_op|].
    destruct (toy_addPoint_neutral (Toy.addPoint P (Pos.iter_op Toy.addPoint q P)))
      as [-> _]; [|reflexivity].
    apply toy_valid_addPoint; [exact HP | now apply toy_valid_iter_op].
Qed.

Lemma toy_unpack_pack (P : Point Z) :
  Toy.valid P -> Toy.unpackPoint (Toy.packPoint P) = Some P.
Proof.
  intros HP.
  assert (match Toy.unpackPoint (Toy.packPoint P) with
          | Some Q => Toy.point_eqb Q P
          | None => false
          end = true) as H.
  { revert P HP.
    apply (toy_points_forall
             (fun P => match Toy.unpackPoint (Toy.packPoint P) with
                       | Some Q => Toy.point_eqb Q P
                       | None => false
                       end)).
    vm_cast_no_check (eq_refl true). }
  destruct (Toy.unpackPoint (Toy.packPoint P)) as [Q|]; [|discriminate].
  f_equal. now apply toy_point_eqb_eq.
Qed.

Lemma toy_contract : Contract Toy.lib Toy.valid.
Proof.
  split.
  - intros buf. unfold Toy.lib, Toy.blake. cbn [blake].
    rewrite length_fmap, length_seqZ. reflexivity.
  - intros inputs. cbn. unfold Toy.poseidon5. apply Z.mod_pos_bound. reflexivity.
  - reflexivity.
  - intros P HP. exact HP.
  - reflexivity.
  - reflexivity.
  - exact toy_valid_addPoint.
  - intros P HP. exact (proj1 (toy_addPoint_neutral P HP)).
  - exact toy_addPoint_assoc.
  - reflexivity.
  - exact toy_mulPointEscalar_succ.
  - vm_compute. reflexivity.
  - exact toy_unpack_pack.
Qed.

(** ** Concrete runs on the small library *)

Example toy_run :
  V2.derivePublicKey Toy.lib Toy.key = Ok Toy.publicKey /\
  V2.signMessage Toy.lib Toy.key Toy.message = Ok Toy.signature /\
  V2.verifySignature Toy.lib Toy.message (signature_map BNstring Toy.signature)
    (point_map BNstring Toy.publicKey) = Ok true /\
  V2.verifySignature Toy.lib (OfNumber 3) (signature_map BNstring Toy.signature)
    (point_map BNstring Toy.publicKey) = Ok false /\
  V2.packPublicKey Toy.lib (point_map BNstring Toy.publicKey) = Ok "32"%string /\
  V2.unpackPublicKey Toy.lib (BNstring "32") = Ok Toy.publicKey.
Proof. repeat split; vm_compute; reflexivity. Qed.

Lemma sign_then_verify_witness :
  Contract Toy.lib Toy.valid /\
  checkPrivateKey Toy.lib Toy.key = Ok Toy.key_bytes /\
  checkMessage Toy.lib Toy.message = Ok 2 /\
  exists sig pk,
    V2.signMessage Toy.lib Toy.key Toy.message = Ok sig /\
    V2.derivePublicKey Toy.lib Toy.key = Ok pk /\
    V2.verifySignature Toy.lib Toy.message (signature_map BNstring sig)
      (point_map BNstring pk) = Ok true.
Proof.
  split; [exact toy_contract|]. split; [reflexivity|]. split; [reflexivity|].
  exact (sign_then_verify Toy.lib Toy.valid toy_contract Toy.key Toy.message
           Toy.key_bytes 2 eq_refl eq_refl).
Defined.

(** C2, as stated, fails: with a signature and a public key that pass the
    guard, a message that [checkMessage] rejects makes [verifySignature]
    raise instead of returning [false]. *)
Lemma verifySignature_raises_on_invalid_message :
  checkMessage Toy.lib Toy.bad_message = Throw (JsError "Invalid message") /\
  V2.verifySignature Toy.lib Toy.bad_message (signature_map BNstring Toy.signature)
    (point_map BNstring Toy.publicKey) = Throw (JsError "Invalid message") /\
  V1.verifySignature Toy.lib Toy.bad_message (signature_map BNstring Toy.signature)
    (point_map BNstring Toy.publicKey) = Throw (JsError "Invalid message").
Proof. repeat split; vm_compute; reflexivity. Qed.

Lemma verifySignature_raises_only_for_message_witness :
  (rejects Toy.lib (signature_map BNstring Toy.signature) Toy.off_curve = true /\
   V2.verifySignature Toy.lib Toy.bad_message (signature_map BNstring Toy.signature)
     Toy.off_curve = Ok false) /\
  (rejects Toy.lib (signature_map BNstring Toy.signature)
     (point_map BNstring Toy.publicKey) = false /\
   checkMessage Toy.lib Toy.bad_message = Throw (JsError "Invalid message") /\
   V2.verifySignature Toy.lib Toy.bad_message (signature_map BNstring Toy.signature)
     (point_map BNstring Toy.publicKey) = Throw (JsError "Invalid message")).
Proof.
  split.
  - split; [reflexivity|].
    exact (proj1 (proj2 (proj2 (verifySignature_raises_only_for_message Toy.lib
                   Toy.bad_message (signature_map BNstring Toy.signature) Toy.off_curve)))
             eq_refl).
  - split; [reflexivity|]. split; [reflexivity|].
    exact (proj1 (proj2 (proj2 (proj2 (verifySignature_raises_only_for_message Toy.lib
                   Toy.bad_message (signature_map BNstring Toy.signature)
                   (point_map BNstring Toy.publicKey)))))
             eq_refl (JsError "Invalid message") eq_refl).
Defined.

Lemma verifySignature_negative_S_not_rejected_witness :
  0 < subOrder Toy.lib /\
  isPoint (point_map BNstring Toy.publicKey) = true /\
  isSignature Toy.signature_minus = true /\
  inCurve Toy.lib (pointValue (R8 Toy.signature_minus)) = true /\
  inCurve Toy.lib (pointValue (point_map BNstring Toy.publicKey)) = true /\
  valueOf (S Toy.signature_minus) < 0 /\
  rejects Toy.lib Toy.signature_minus (point_map BNstring Toy.publicKey) = false /\
  V2.verifySignature Toy.lib Toy.bad_message Toy.signature_minus
    (point_map BNstring Toy.publicKey) = Throw (JsError "Invalid message") /\
  V1.verifySignature Toy.lib Toy.bad_message Toy.signature_minus
    (point_map BNstring Toy.publicKey) =
  V2.verifySignature Toy.lib Toy.bad_message Toy.signature_minus
    (point_map BNstring Toy.publicKey).
Proof.
  do 6 (split; [reflexivity|]).
  exact (verifySignature_negative_S_not_rejected Toy.lib Toy.bad_message
           Toy.signature_minus (point_map BNstring Toy.publicKey)
           eq_refl eq_refl eq_refl eq_refl eq_refl eq_refl).
Defined.

Lemma verifySignature_rejects_large_S_witness :
  isSignature Toy.signature_plus = true /\
  BigInt (S Toy.signature_plus) = Ok 7 /\
  subOrder Toy.lib <= 7 /\
  V2.verifySignature Toy.lib Toy.message Toy.signature_plus
    (point_map BNstring Toy.publicKey) = Ok false /\
  V1.verifySignature Toy.lib Toy.message Toy.signature_plus
    (point_map BNstring Toy.publicKey) = Ok false.
Proof.
  split; [reflexivity|]. split; [reflexivity|].
  split; [vm_compute; discriminate|].
  apply (verifySignature_rejects_large_S Toy.lib Toy.message Toy.signature_plus
           (point_map BNstring Toy.publicKey) 7); [reflexivity | reflexivity |].
  vm_compute; discriminate.
Defined.

(** C4, as stated, fails on the older variant: its [deriveSecretScalar]
    returns the pruned integer itself, not its right shift by 3 bits. *)
Lemma older_deriveSecretScalar_not_shifted :
  secret_scalar_spec (blake Toy.lib Toy.key_bytes) =
    4891393927606618580375123861568962851135461311263744731368590272074815338589 /\
  V1.deriveSecretScalar Toy.lib Toy.key =
    Ok 39131151420852948643000990892551702809083690490109957850948722176598522708712.
Proof. split; vm_compute; reflexivity. Qed.

Lemma deriveSecretScalar_as_specified_witness :
  checkPrivateKey Toy.lib Toy.key = Ok Toy.key_bytes /\
  length (blake Toy.lib Toy.key_bytes) = 64%nat /\
  V2.deriveSecretScalar Toy.lib Toy.key =
    Ok (toString (secret_scalar_spec (blake Toy.lib Toy.key_bytes))) /\
  V1.deriveSecretScalar Toy.lib Toy.key =
    Ok (leBufferToBigInt (prune_spec (take 32 (blake Toy.lib Toy.key_bytes)))).
Proof.
  split; [reflexivity|]. split; [reflexivity|].
  exact (deriveSecretScalar_as_specified Toy.lib Toy.key Toy.key_bytes eq_refl eq_refl).
Defined.

Lemma signMessage_nonce_witness :
  checkPrivateKey Toy.lib Toy.key = Ok Toy.key_bytes /\
  checkMessage Toy.lib Toy.message = Ok 2 /\
  length (blake Toy.lib Toy.key_bytes) = 64%nat /\
  t_r (V2.signTrace Toy.lib Toy.key_bytes 2) = nonce_spec Toy.lib Toy.key_bytes 2 /\
  t_r (V1.signTrace Toy.lib Toy.key_bytes 2) = nonce_spec Toy.lib Toy.key_bytes 2 /\
  exists sig,
    V2.signMessage Toy.lib Toy.key Toy.message = Ok sig /\
    V1.signMessage Toy.lib Toy.key Toy.message = Ok sig /\
    R8 sig = point_map toString
               (mulPointEscalar Toy.lib (Base8 Toy.lib) (nonce_spec Toy.lib Toy.key_bytes 2)).
Proof.
  split; [reflexivity|]. split; [reflexivity|]. split; [reflexivity|].
  exact (signMessage_nonce Toy.lib Toy.key Toy.message Toy.key_bytes 2
           eq_refl eq_refl eq_refl).
Defined.

Lemma derivePublicKey_is_signing_point_witness :
  checkPrivateKey Toy.lib Toy.key = Ok Toy.key_bytes /\
  checkMessage Toy.lib Toy.message = Ok 2 /\
  V2.signMessage Toy.lib Toy.key Toy.message =
    Ok {| R8 := point_map toString (t_R8 (V2.signTrace Toy.lib Toy.key_bytes 2));
          S := toString (t_S (V2.signTrace Toy.lib Toy.key_bytes 2)) |} /\
  V2.derivePublicKey Toy.lib Toy.key =
    Ok (point_map toString (t_A (V2.signTrace Toy.lib Toy.key_bytes 2))).
Proof.
  split; [reflexivity|]. split; [reflexivity|].
  exact (derivePublicKey_is_signing_point Toy.lib Toy.key Toy.message Toy.key_bytes 2
           eq_refl eq_refl).
Defined.

Lemma pack_then_unpack_witness :
  Contract Toy.lib Toy.valid /\
  toPoint (point_map BNstring Toy.publicKey) = Ok (9, 32) /\
  Toy.valid (9, 32) /\
  (exists packed Q,
      V2.packPublicKey Toy.lib (point_map BNstring Toy.publicKey) = Ok packed /\
      V2.unpackPublicKey Toy.lib (BNstring packed) = Ok Q /\
      Q = point_map toString (9, 32) /\
      toPoint (point_map BNstring Q) = toPoint (point_map BNstring Toy.publicKey)) /\
  validPublicKey Toy.lib Toy.off_curve = false /\
  V2.packPublicKey Toy.lib Toy.off_curve = Throw (JsError "Invalid public key").
Proof.
  split; [exact toy_contract|]. split; [reflexivity|]. split; [reflexivity|].
  pose proof (pack_then_unpack Toy.lib Toy.valid toy_contract) as [Hround Hfail].
  split; [exact (Hround (point_map BNstring Toy.publicKey) (9, 32) eq_refl eq_refl)|].
  split; [reflexivity|].
  exact (Hfail Toy.off_curve eq_refl).
Defined.

(** C8, as stated, fails: on the same private key the older
    [deriveSecretScalar] returns the pruned integer and the newer one that
    integer shifted right by 3 bits (as a string). *)
Lemma variants_agree_witness :
  helpers_agree Toy.lib Toy.older_helpers /\
  Older.derivePublicKey Toy.lib Toy.older_helpers Toy.key =
    V2.derivePublicKey Toy.lib Toy.key /\
  Older.signMessage Toy.lib Toy.older_helpers Toy.key Toy.message =
    V2.signMessage Toy.lib Toy.key Toy.message /\
  Older.verifySignature Toy.lib Toy.older_helpers Toy.message
    (signature_map BNstring Toy.signature) (point_map BNstring Toy.publicKey) =
    V2.verifySignature Toy.lib Toy.message
      (signature_map BNstring Toy.signature) (point_map BNstring Toy.publicKey) /\
  V2.deriveSecretScalar Toy.lib Toy.key =
    (fun s => toString (Z.shiftr s 3)) <$>
      Older.deriveSecretScalar Toy.lib Toy.older_helpers Toy.key.
Proof.
  split; [exact toy_older_helpers_agree|].
  exact (variants_agree Toy.lib Toy.older_helpers Toy.key Toy.message
           (signature_map BNstring Toy.signature) (point_map BNstring Toy.publicKey)
           toy_older_helpers_agree).
Defined.

Lemma variants_differ_on_deriveSecretScalar :
  V1.deriveSecretScalar Toy.lib Toy.key =
    Ok 39131151420852948643000990892551702809083690490109957850948722176598522708712 /\
  V2.deriveSecretScalar Toy.lib Toy.key =
    Ok "4891393927606618580375123861568962851135461311263744731368590272074815338589"%string /\
  BigInt (BNstring "4891393927606618580375123861568962851135461311263744731368590272074815338589")
    <> Ok 39131151420852948643000990892551702809083690490109957850948722176598522708712.
Proof.
  split; [vm_compute; reflexivity|].
  split; [vm_compute; reflexivity | vm_compute; discriminate].
Qed.

Lemma signMessage_S_in_range_witness :
  0 < subOrder Toy.lib /\
  checkPrivateKey Toy.lib Toy.key = Ok Toy.key_bytes /\
  checkMessage Toy.lib Toy.message = Ok 2 /\
  exists sig s,
    V2.signMessage Toy.lib Toy.key Toy.message = Ok sig /\
    V1.signMessage Toy.lib Toy.key Toy.message = Ok sig /\
    S sig = toString s /\
    0 <= s < subOrder Toy.lib /\
    (s' ← BigInt (BNstring (S sig)); mret (subOrder Toy.lib <=? s')) = Ok false.
Proof.
  split; [reflexivity|]. split; [reflexivity|]. split; [reflexivity|].
  exact (signMessage_S_in_range Toy.lib Toy.key Toy.message Toy.key_bytes 2
           eq_refl eq_refl eq_refl).
Defined.

Lemma secret_scalar_range_witness :
  checkPrivateKey Toy.lib Toy.key = Ok Toy.key_bytes /\
  length (blake Toy.lib Toy.key_bytes) = 64%nat /\
  exists z,
    V2.deriveSecretScalar Toy.lib Toy.key = Ok (toString z) /\
    2 ^ 251 <= z < 2 ^ 252 /\
    forall mz, let s := t_s (V2.signTrace Toy.lib Toy.key_bytes mz) in
      2 ^ 254 <= s < 2 ^ 255 /\ s mod 8 = 0 /\ z = Z.shiftr s 3 /\ s = 8 * z.
Proof.
  split; [reflexivity|]. split; [reflexivity|].
  exact (secret_scalar_range Toy.lib Toy.key Toy.key_bytes eq_refl eq_refl).
Defined.

(** * Further properties of the module *)

(** ** Shared facts *)

Lemma Outcome_Ok_inj {A} (a b : A) : Ok a = Ok b -> a = b.
Proof. now intros [= ->]. Qed.

Lemma BigInt_valueOf (x : BigNumber) (z : Z) : BigInt x = Ok z -> valueOf x = z.
Proof. unfold valueOf. now intros ->. Qed.

Lemma BigInt_isBigNumber (x : BigNumber) (z : Z) : BigInt x = Ok z -> isBigNumber x = true.
Proof.
  destruct x as [n|s]; [reflexivity|].
  unfold BigInt, isBigNumber, isStringifiedBigint.
  now destruct (StringToBigInt s).
Qed.

Lemma toString_inj (x y : Z) : toString x = toString y -> x = y.
Proof.
  intros H. apply (f_equal StringToBigInt) in H.
  rewrite !StringToBigInt_toString in H. now injection H.
Qed.

Lemma isSignature_toString (R : Point Z) (s : Z) :
  isSignature (signature_map BNstring {| R8 := point_map toString R; S := toString s |}) = true.
Proof.
  unfold isSignature, signature_map. cbn [R8 S].
  now rewrite isPoint_toString, isBigNumber_toString.
Qed.

Lemma packPublicKey_valid (L : Lib) (P : Point BigNumber) :
  validPublicKey L P = true ->
  V2.packPublicKey L P = Ok (toString (packPoint L (pointValue P))).
Proof.
  unfold validPublicKey. intros H. apply andb_true_iff in H as [Hwf Hin].
  unfold V2.packPublicKey, inCurve_bn. rewrite Hwf, (toPoint_valid P Hwf).
  cbn [negb orElse fmap Outcome_fmap mbind Outcome_bind]. rewrite Hin. cbn [negb].
  unfold isPoint in Hwf. apply andb_true_iff in Hwf as [H1 H2].
  now rewrite (isBigNumber_BigInt _ H1), (isBigNumber_BigInt _ H2).
Qed.

Lemma packPublicKey_invalid (L : Lib) (P : Point BigNumber) :
  validPublicKey L P = false ->
  V2.packPublicKey L P = Throw (JsError "Invalid public key").
Proof.
  intros HP. unfold validPublicKey in HP. unfold V2.packPublicKey, inCurve_bn.
  destruct (isPoint P) eqn:Hwf; [|reflexivity].
  rewrite (toPoint_valid P Hwf). cbn in HP |- *. now rewrite HP.
Qed.

Lemma unpackPublicKey_convertible (L : Lib) (x : BigNumber) (n : Z) :
  BigInt x = Ok n ->
  V2.unpackPublicKey L x =
  match unpackPoint L n with
  | None => Throw (JsError "Invalid public key")
  | Some P => Ok (point_map toString P)
  end.
Proof.
  intros Hx. unfold V2.unpackPublicKey. rewrite Hx.
  destruct x as [z|s].
  - cbn. now destruct (unpackPoint L n).
  - pose proof (BigInt_isBigNumber _ _ Hx) as Hs. cbn [isBigNumber] in Hs.
    rewrite Hs. cbn. now destruct (unpackPoint L n).
Qed.

Section Honest.
Context (L : Lib) (G : Point Z -> Prop) (HC : Contract L G).

(** What the contract gives on the local bindings of [signMessage]. *)
Lemma signTrace_sound (kb : Buffer) (mz : Z) :
  let t := V2.signTrace L kb mz in
  G (t_R8 t) /\ G (t_A t) /\ 0 <= t_S t < subOrder L /\
  mulPointEscalar L (Base8 L) (t_S t) =
    addPoint L (t_R8 t) (mulPointEscalar L (t_A t) (t_hm t * 8)).
Proof.
  pose proof (subOrder_pos L G HC) as Hl.
  pose proof (valid_Base8 L G HC) as HB.
  pose proof (pruned_scalar_range (slice 0 32 (blake L kb))
                (slice_low_length _ (blake_length L G HC kb))) as [[Hs _] Hs8].
  cbv zeta in Hs, Hs8 |- *.
  assert (0 <= t_r (V2.signTrace L kb mz)) as Hr.
  { cbn [V2.signTrace t_r]. unfold F1Field.e. apply Z.mod_pos_bound, Hl. }
  split; [cbn [V2.signTrace t_R8]; now apply (valid_mul L G HC)|].
  split.
  { cbn [V2.signTrace t_A]. apply (valid_mul L G HC); [exact HB|].
    apply Z.shiftr_nonneg. lia. }
  split; [cbn [V2.signTrace t_S]; unfold F1Field.add; apply Z.mod_pos_bound, Hl|].
  apply (verification_equation L G HC (t_s (V2.signTrace L kb mz))
           (t_r (V2.signTrace L kb mz)) (t_hm (V2.signTrace L kb mz)));
    [cbn [V2.signTrace t_s]; lia | exact Hs8 | exact Hr | apply (poseidon5_nonneg L G HC)].
Qed.

(** The signature made from these bindings verifies under the point [A]. *)
Lemma verifySignature_honest (m : BigNumberish) (kb : Buffer) (mz : Z) :
  checkMessage L m = Ok mz ->
  let t := V2.signTrace L kb mz in
  V2.verifySignature L m
    (signature_map BNstring {| R8 := point_map toString (t_R8 t); S := toString (t_S t) |})
    (point_map BNstring (point_map toString (t_A t))) = Ok true.
Proof.
  intros Hm t. destruct (signTrace_sound kb mz) as (HR8 & HA & HS & Heq). fold t in HR8, HA, HS, Heq.
  rewrite verifySignature_unfold. unfold rejects, verdict.
  rewrite isSignature_toString, isPoint_toString.
  unfold signature_map. cbn [R8 S].
  rewrite !pointValue_toString, valueOf_toString.
  rewrite (valid_inCurve L G HC _ HR8), (valid_inCurve L G HC _ HA).
  replace (subOrder L <=? t_S t) with false by (symmetry; apply Z.leb_gt; lia).
  cbn [negb orb]. rewrite Hm.
  change (poseidon5 L [(t_R8 t).1; (t_R8 t).2; (t_A t).1; (t_A t).2; mz]) with (t_hm t).
  rewrite Heq. now rewrite !Z.eqb_refl.
Qed.

Lemma derived_key_valid (kb : Buffer) (mz : Z) :
  validPublicKey L (point_map BNstring (point_map toString (t_A (V2.signTrace L kb mz)))) = true.
Proof.
  destruct (signTrace_sound kb mz) as (_ & HA & _).
  unfold validPublicKey.
  now rewrite isPoint_toString, pointValue_toString, (valid_inCurve L G HC _ HA).
Qed.

End Honest.

(** ** Errors of the key derivation and of signing *)

(** X1. [derivePublicKey] raises exactly when [checkPrivateKey] rejects the
    private key, and then with that error: converting the secret scalar back
    from its decimal string never fails.  Both variants. *)
Theorem derivePublicKey_raises_iff_key_rejected (L : Lib) (k : BigNumberish) (e : Exn) :
  (V2.derivePublicKey L k = Throw e <-> checkPrivateKey L k = Throw e) /\
  (V1.derivePublicKey L k = Throw e <-> checkPrivateKey L k = Throw e).
Proof.
  destruct (checkPrivateKey L k) as [kb|e'] eqn:Hk.
  - rewrite (derivePublicKey_unfold L k kb Hk).
    unfold V1.derivePublicKey, V1.deriveSecretScalar. rewrite Hk.
    split; split; intros H; discriminate H.
  - unfold V2.derivePublicKey, V2.deriveSecretScalar, V1.derivePublicKey,
      V1.deriveSecretScalar. rewrite Hk.
    split; split; intros H; cbn in H |- *; injection H as ->; reflexivity.
Qed.

(** X2. [signMessage] raises only the error of a check: the private key's
    when [checkPrivateKey] rejects it, whatever the message, and the
    message's when the key is accepted and [checkMessage] rejects the
    message.  Both variants. *)
Theorem signMessage_raises_iff_check_fails (L : Lib) (k m : BigNumberish) (e : Exn) :
  (V2.signMessage L k m = Throw e <->
     checkPrivateKey L k = Throw e \/
     (exists kb, checkPrivateKey L k = Ok kb) /\ checkMessage L m = Throw e) /\
  (V1.signMessage L k m = Throw e <-> V2.signMessage L k m = Throw e).
Proof.
  split; [|reflexivity].
  unfold V2.signMessage.
  destruct (checkPrivateKey L k) as [kb|e1]; cbn [mbind Outcome_bind mret Outcome_ret].
  - destruct (checkMessage L m) as [mz|e2]; cbn [mbind Outcome_bind mret Outcome_ret].
    + split; [discriminate|]. intros [H|[_ H]]; discriminate.
    + split; [intros [= ->]; right; eauto|]. intros [H|[_ H]]; congruence.
  - split; [intros [= ->]; now left|]. intros [H|[[kb H] _]]; congruence.
Qed.

(** X3. Under the library contract every signature [signMessage] returns is
    well formed and its [R8] is on the curve: of the five tests of the guard
    of [verifySignature], the three on the signature pass. *)
Theorem signMessage_output_passes_guard (L : Lib) (G : Point Z -> Prop)
    (HC : Contract L G) (k m : BigNumberish) (sig : Signature string) :
  V2.signMessage L k m = Ok sig ->
  isSignature (signature_map BNstring sig) = true /\
  inCurve L (pointValue (point_map BNstring (R8 sig))) = true /\
  (subOrder L <=? valueOf (BNstring (S sig))) = false.
Proof.
  intros Hsig.
  destruct (checkPrivateKey L k) as [kb|] eqn:Hk;
    [|unfold V2.signMessage in Hsig; rewrite Hk in Hsig; discriminate Hsig].
  destruct (checkMessage L m) as [mz|] eqn:Hm;
    [|unfold V2.signMessage in Hsig; rewrite Hk in Hsig; cbn in Hsig;
      rewrite Hm in Hsig; discriminate Hsig].
  rewrite (signMessage_unfold L k m kb mz Hk Hm) in Hsig.
  apply Outcome_Ok_inj in Hsig. subst sig.
  destruct (signTrace_sound L G HC kb mz) as (HR8 & _ & HS & _).
  split; [apply isSignature_toString|]. cbn [R8 S].
  rewrite pointValue_toString, valueOf_toString.
  split; [now apply (valid_inCurve L G HC)|]. apply Z.leb_gt. lia.
Qed.

(** X4. The response of a signature in terms of the secret scalar
    [deriveSecretScalar] exports: the public point is [Base8] times that
    scalar [z], and [S = (r + hm * (8 * z)) mod subOrder]. *)
Theorem signMessage_response_from_secret_scalar (L : Lib) (k : BigNumberish)
    (kb : Buffer) (mz : Z) :
  checkPrivateKey L k = Ok kb ->
  length (blake L kb) = 64%nat ->
  exists z,
    V2.deriveSecretScalar L k = Ok (toString z) /\
    let t := V2.signTrace L kb mz in
    t_A t = mulPointEscalar L (Base8 L) z /\
    t_S t = (t_r t + t_hm t * (8 * z)) mod subOrder L.
Proof.
  intros Hk Hlen.
  eexists. split; [exact (deriveSecretScalar_unfold L k kb Hk)|].
  pose proof (pruned_scalar_range (slice 0 32 (blake L kb)) (slice_low_length _ Hlen))
    as [_ Hs8].
  cbv zeta in Hs8 |- *. split; [reflexivity|].
  cbn [V2.signTrace t_S t_r t_hm]. unfold F1Field.add, F1Field.mul.
  set (s := leBufferToBigInt (pruneBuffer (slice 0 32 (blake L kb)))) in *.
  rewrite Zplus_mod_idemp_r.
  f_equal. f_equal. f_equal.
  rewrite Z.shiftr_div_pow2 by lia. change (2 ^ 3) with 8.
  pose proof (Z.div_mod s 8 ltac:(lia)) as Hdiv. rewrite Hs8 in Hdiv. lia.
Qed.

(** ** The class [EdDSAPoseidon] *)

Lemma constructor_unfold (L : Lib) (k : BigNumberish) (kb : Buffer) :
  checkPrivateKey L k = Ok kb ->
  let z := Z.shiftr (leBufferToBigInt (pruneBuffer (slice 0 32 (blake L kb)))) 3 in
  let pk := point_map BNstring (point_map toString (mulPointEscalar L (Base8 L) z)) in
  EdDSAPoseidon.constructor L k =
  packed ← V2.packPublicKey L pk; mret (EdDSAPoseidon.mk k (toString z) pk packed).
Proof.
  intros Hk z pk. unfold EdDSAPoseidon.constructor.
  rewrite (deriveSecretScalar_unfold L k kb Hk), (derivePublicKey_unfold L k kb Hk).
  reflexivity.
Qed.

Lemma constructor_rejected (L : Lib) (k : BigNumberish) (e : Exn) :
  checkPrivateKey L k = Throw e -> EdDSAPoseidon.constructor L k = Throw e.
Proof.
  intros Hk. unfold EdDSAPoseidon.constructor, V2.deriveSecretScalar. now rewrite Hk.
Qed.

Lemma constructor_Ok (L : Lib) (G : Point Z -> Prop) (HC : Contract L G)
    (k : BigNumberish) (kb : Buffer) :
  checkPrivateKey L k = Ok kb ->
  let z := Z.shiftr (leBufferToBigInt (pruneBuffer (slice 0 32 (blake L kb)))) 3 in
  let P := mulPointEscalar L (Base8 L) z in
  EdDSAPoseidon.constructor L k =
  Ok (EdDSAPoseidon.mk k (toString z) (point_map BNstring (point_map toString P))
        (toString (packPoint L P))).
Proof.
  intros Hk z P. rewrite (constructor_unfold L k kb Hk).
  rewrite packPublicKey_valid by exact (derived_key_valid L G HC kb 0).
  fold z. fold P. now rewrite pointValue_toString.
Qed.

(** X5. Under the library contract, building an [EdDSAPoseidon] raises
    exactly when [checkPrivateKey] rejects the private key, and then with that
    error: for an accepted key [packPublicKey] never refuses the derived
    public key. *)
Theorem constructor_raises_iff_key_rejected (L : Lib) (G : Point Z -> Prop)
    (HC : Contract L G) (k : BigNumberish) (e : Exn) :
  EdDSAPoseidon.constructor L k = Throw e <-> checkPrivateKey L k = Throw e.
Proof.
  destruct (checkPrivateKey L k) as [kb|e'] eqn:Hk.
  - rewrite (constructor_Ok L G HC k kb Hk). split; intros H; discriminate H.
  - rewrite (constructor_rejected L k e' Hk). split; intros H; injection H as ->; reflexivity.
Qed.

(** X6. The fields of an instance belong together: [privateKey] is the
    constructor's argument, [secretScalar] is what [deriveSecretScalar]
    returns for it, and [publicKey] holds the decimal strings of [Base8]
    multiplied by the integer [secretScalar] denotes. *)
Theorem constructor_fields (L : Lib) (k : BigNumberish) (this : EdDSAPoseidon.t) :
  EdDSAPoseidon.constructor L k = Ok this ->
  EdDSAPoseidon.privateKey this = k /\
  V2.deriveSecretScalar L k = Ok (EdDSAPoseidon.secretScalar this) /\
  V2.derivePublicKey L k = Ok (point_map toString (pointValue (EdDSAPoseidon.publicKey this))) /\
  EdDSAPoseidon.publicKey this =
    point_map BNstring
      (point_map toString
         (mulPointEscalar L (Base8 L) (valueOf (BNstring (EdDSAPoseidon.secretScalar this))))).
Proof.
  intros Hnew.
  destruct (checkPrivateKey L k) as [kb|e] eqn:Hk;
    [|rewrite (constructor_rejected L k e Hk) in Hnew; discriminate Hnew].
  rewrite (constructor_unfold L k kb Hk) in Hnew. cbv zeta in Hnew.
  destruct (V2.packPublicKey L _) as [packed|]; [|discriminate Hnew].
  apply Outcome_Ok_inj in Hnew. subst this.
  cbn [EdDSAPoseidon.privateKey EdDSAPoseidon.secretScalar EdDSAPoseidon.publicKey].
  rewrite pointValue_toString, valueOf_toString.
  split; [reflexivity|]. split; [exact (deriveSecretScalar_unfold L k kb Hk)|].
  split; [exact (derivePublicKey_unfold L k kb Hk) | reflexivity].
Qed.

(** X7. Under the library contract, unpacking the [packedPublicKey] of an
    instance gives back its [publicKey], string for string. *)
Theorem constructor_packed_key_unpacks (L : Lib) (G : Point Z -> Prop)
    (HC : Contract L G) (k : BigNumberish) (this : EdDSAPoseidon.t) :
  EdDSAPoseidon.constructor L k = Ok this ->
  exists Q,
    V2.unpackPublicKey L (BNstring (EdDSAPoseidon.packedPublicKey this)) = Ok Q /\
    point_map BNstring Q = EdDSAPoseidon.publicKey this.
Proof.
  intros Hnew.
  destruct (checkPrivateKey L k) as [kb|e] eqn:Hk;
    [|rewrite (constructor_rejected L k e Hk) in Hnew; discriminate Hnew].
  rewrite (constructor_Ok L G HC k kb Hk) in Hnew.
  apply Outcome_Ok_inj in Hnew. subst this.
  cbn [EdDSAPoseidon.packedPublicKey EdDSAPoseidon.publicKey].
  eexists. split; [|reflexivity].
  rewrite (unpackPublicKey_convertible L _ _ (BigInt_toString _)).
  rewrite (unpack_pack L G HC); [reflexivity|].
  destruct (signTrace_sound L G HC kb 0) as (_ & HA & _). exact HA.
Qed.

(** X8. Under the library contract, an instance verifies what it signs: for
    every message [checkMessage] accepts, [this.verifySignature(m,
    this.signMessage(m))] returns [true]. *)
Theorem instance_sign_then_verify (L : Lib) (G : Point Z -> Prop) (HC : Contract L G)
    (k m : BigNumberish) (mz : Z) (this : EdDSAPoseidon.t) :
  EdDSAPoseidon.constructor L k = Ok this ->
  checkMessage L m = Ok mz ->
  exists sig,
    EdDSAPoseidon.signMessage L this m = Ok sig /\
    EdDSAPoseidon.verifySignature L this m (signature_map BNstring sig) = Ok true.
Proof.
  intros Hnew Hm.
  destruct (checkPrivateKey L k) as [kb|e] eqn:Hk;
    [|rewrite (constructor_rejected L k e Hk) in Hnew; discriminate Hnew].
  rewrite (constructor_Ok L G HC k kb Hk) in Hnew.
  apply Outcome_Ok_inj in Hnew. subst this.
  unfold EdDSAPoseidon.signMessage, EdDSAPoseidon.verifySignature.
  cbn [EdDSAPoseidon.privateKey EdDSAPoseidon.publicKey].
  eexists. split; [exact (signMessage_unfold L k m kb mz Hk Hm)|].
  exact (verifySignature_honest L G HC m kb mz Hm).
Qed.

(** ** What [verifySignature] accepts *)

(** X9. [verifySignature] returns [true] only for a well-formed public key and
    signature whose points are on the curve, whose [S] is below [subOrder],
    with a message [checkMessage] accepts, and for which
    [S * Base8 = R8 + (8 * hm) * publicKey] holds with
    [hm = poseidon5(R8, publicKey, message)].  Both variants. *)
Theorem verifySignature_true_only_if (L : Lib) (m : BigNumberish)
    (sig : Signature BigNumber) (pk : Point BigNumber) :
  V2.verifySignature L m sig pk = Ok true \/ V1.verifySignature L m sig pk = Ok true ->
  isPoint pk = true /\ isSignature sig = true /\
  inCurve L (pointValue (R8 sig)) = true /\ inCurve L (pointValue pk) = true /\
  valueOf (S sig) < subOrder L /\
  exists mz,
    checkMessage L m = Ok mz /\
    let R := pointValue (R8 sig) in
    let A := pointValue pk in
    let hm := poseidon5 L [R.1; R.2; A.1; A.2; mz] in
    mulPointEscalar L (Base8 L) (valueOf (S sig)) =
    addPoint L R (mulPointEscalar L A (8 * hm)).
Proof.
  intros H.
  assert (V2.verifySignature L m sig pk = Ok true) as Hv by (destruct H as [H|H]; exact H).
  clear H. rewrite verifySignature_unfold in Hv.
  destruct (rejects L sig pk) eqn:Hrej; [discriminate Hv|].
  destruct (checkMessage L m) as [mz|]; [|discriminate Hv].
  apply Outcome_Ok_inj in Hv.
  unfold rejects in Hrej.
  repeat (apply orb_false_iff in Hrej as [Hrej ?]).
  repeat match goal with H : negb _ = false |- _ => apply negb_false_iff in H end.
  repeat split; try assumption; [apply Z.leb_gt; assumption|].
  exists mz. split; [reflexivity|]. cbv zeta.
  unfold verdict in Hv. apply andb_true_iff in Hv as [Hx Hy].
  apply Z.eqb_eq in Hx, Hy. rewrite (Z.mul_comm 8).
  apply injective_projections; assumption.
Qed.

(** X10. The verdict depends on the numbers, not on how they are written: two
    well-formed public keys and two well-formed signatures that denote the
    same integers (as bigints, decimal or prefixed strings) get the same
    result from [verifySignature]. *)
Theorem verifySignature_encoding_independent (L : Lib) (m : BigNumberish)
    (sig sig' : Signature BigNumber) (pk pk' : Point BigNumber) :
  isPoint pk = true -> isPoint pk' = true -> pointValue pk = pointValue pk' ->
  isSignature sig = true -> isSignature sig' = true ->
  pointValue (R8 sig) = pointValue (R8 sig') -> valueOf (S sig) = valueOf (S sig') ->
  V2.verifySignature L m sig pk = V2.verifySignature L m sig' pk'.
Proof.
  intros Hpk Hpk' Epk Hsig Hsig' ER ES.
  rewrite !verifySignature_unfold. unfold rejects, verdict.
  now rewrite Hpk, Hpk', Hsig, Hsig', Epk, ER, ES.
Qed.

(** ** Packing and unpacking public keys *)

Lemma toPoint_validPublicKey (L : Lib) (G : Point Z -> Prop) (HC : Contract L G)
    (P : Point BigNumber) (Pz : Point Z) :
  toPoint P = Ok Pz -> G Pz -> validPublicKey L P = true /\ pointValue P = Pz.
Proof.
  intros HP HG. destruct (toPoint_Ok P Pz HP) as [Hwf Hval].
  unfold validPublicKey. rewrite Hwf, Hval. split; [|reflexivity].
  now rewrite (valid_inCurve L G HC Pz HG).
Qed.

(** X11. Under the library contract [packPublicKey] tells valid points apart:
    two valid public keys have the same packed form exactly when they are the
    same point, however their coordinates are written. *)
Theorem packPublicKey_same_iff_same_point (L : Lib) (G : Point Z -> Prop)
    (HC : Contract L G) (P P' : Point BigNumber) (Pz Pz' : Point Z) :
  toPoint P = Ok Pz -> G Pz ->
  toPoint P' = Ok Pz' -> G Pz' ->
  (V2.packPublicKey L P = V2.packPublicKey L P' <-> Pz = Pz').
Proof.
  intros HP HG HP' HG'.
  destruct (toPoint_validPublicKey L G HC P Pz HP HG) as [Hv Hval].
  destruct (toPoint_validPublicKey L G HC P' Pz' HP' HG') as [Hv' Hval'].
  rewrite (packPublicKey_valid L P Hv), (packPublicKey_valid L P' Hv'), Hval, Hval'.
  split.
  - intros H. apply Outcome_Ok_inj, toString_inj in H.
    pose proof (unpack_pack L G HC Pz HG) as H1.
    pose proof (unpack_pack L G HC Pz' HG') as H2.
    rewrite H in H1. rewrite H1 in H2. now injection H2.
  - now intros ->.
Qed.

(** X12. Whatever [unpackPublicKey] returns is a well-formed point: the
    decimal strings of the point the library unpacked from [BigInt(publicKey)].
    When the library's [inCurve] accepts that point and its [packPoint] maps
    it back, [packPublicKey] returns the packed key as a decimal string. *)
Theorem unpack_then_pack (L : Lib) (x : BigNumber) (Q : Point string) :
  V2.unpackPublicKey L x = Ok Q ->
  isPoint (point_map BNstring Q) = true /\
  exists n P,
    BigInt x = Ok n /\ unpackPoint L n = Some P /\ Q = point_map toString P /\
    (inCurve L P = true -> packPoint L P = n ->
     V2.packPublicKey L (point_map BNstring Q) = Ok (toString n)).
Proof.
  intros H.
  assert (exists n, BigInt x = Ok n) as [n Hn].
  { unfold V2.unpackPublicKey in H.
    destruct (negb _ && negb _ && negb _); [discriminate H|].
    destruct (BigInt x) as [n|]; [eauto | discriminate H]. }
  rewrite (unpackPublicKey_convertible L x n Hn) in H.
  destruct (unpackPoint L n) as [P|] eqn:HP; [|discriminate H].
  apply Outcome_Ok_inj in H. subst Q.
  split; [apply isPoint_toString|].
  exists n, P. repeat split; try assumption.
  intros Hin Hpack. rewrite packPublicKey_valid.
  - now rewrite pointValue_toString, Hpack.
  - unfold validPublicKey. now rewrite isPoint_toString, pointValue_toString.
Qed.

(** X13. The two errors of [unpackPublicKey]: it raises the type error
    exactly on a string that neither [isStringifiedBigint] nor [isHexadecimal]
    accepts (never on a bigint), and "Invalid public key" exactly when
    [BigInt] converts its argument and the library finds no point for it. *)
Theorem unpackPublicKey_errors (L : Lib) (x : BigNumber) :
  (forall msg,
      V2.unpackPublicKey L x = Throw (JsTypeError msg) <->
      msg = "Invalid public key type"%string /\
      exists s, x = BNstring s /\ isStringifiedBigint s = false /\ isHexadecimal L s = false) /\
  (forall msg,
      V2.unpackPublicKey L x = Throw (JsError msg) <->
      msg = "Invalid public key"%string /\
      exists n, BigInt x = Ok n /\ unpackPoint L n = None).
Proof.
  split; intros msg.
  - unfold V2.unpackPublicKey. destruct x as [z|s].
    + cbn. split.
      * destruct (unpackPoint L z); discriminate.
      * intros (_ & s & Hs & _). discriminate Hs.
    + cbn [negb andb]. unfold BigInt, isStringifiedBigint.
      destruct (StringToBigInt s) as [n|] eqn:Hs; cbn [negb andb].
      * cbn. split; [destruct (unpackPoint L n); discriminate|].
        intros (_ & s' & [= <-] & H & _). rewrite Hs in H. discriminate H.
      * destruct (isHexadecimal L s) eqn:Hh; cbn [negb andb mbind Outcome_bind].
        -- split; [discriminate|]. intros (_ & s' & [= <-] & _ & H). congruence.
        -- split.
           ++ intros [= <-]. split; [reflexivity|]. exists s. rewrite Hs. auto.
           ++ intros [-> _]. reflexivity.
  - split.
    + intros H.
      assert (exists n, BigInt x = Ok n) as [n Hn].
      { unfold V2.unpackPublicKey in H.
        destruct (negb _ && negb _ && negb _); [discriminate H|].
        destruct (BigInt x) as [n|e] eqn:Hx; [eauto|].
        cbn in H. injection H as ->.
        destruct x as [z|s]; [discriminate Hx|].
        unfold BigInt in Hx. destruct (StringToBigInt s); discriminate Hx. }
      rewrite (unpackPublicKey_convertible L x n Hn) in H.
      destruct (unpackPoint L n) eqn:HP; [discriminate H|].
      injection H as <-. eauto.
    + intros (-> & n & Hn & HP).
      now rewrite (unpackPublicKey_convertible L x n Hn), HP.
Qed.

(** ** The older variant *)

(** X14. The older variant also verifies what it signs, under the library
    contract: its [derivePublicKey] multiplies [Base8] by its unshifted
    [deriveSecretScalar] shifted right by 3 bits, which is the point its
    [signMessage] commits to. *)
Theorem older_sign_then_verify (L : Lib) (G : Point Z -> Prop) (HC : Contract L G)
    (k m : BigNumberish) (kb : Buffer) (mz : Z) :
  checkPrivateKey L k = Ok kb ->
  checkMessage L m = Ok mz ->
  exists s sig pk,
    V1.deriveSecretScalar L k = Ok s /\
    V1.derivePublicKey L k = Ok pk /\
    pk = point_map toString (mulPointEscalar L (Base8 L) (Z.shiftr s 3)) /\
    V1.signMessage L k m = Ok sig /\
    V1.verifySignature L m (signature_map BNstring sig) (point_map BNstring pk) = Ok true.
Proof.
  intros Hk Hm.
  exists (leBufferToBigInt (pruneBuffer (slice 0 32 (blake L kb)))).
  eexists _, _.
  split; [unfold V1.deriveSecretScalar; rewrite Hk; reflexivity|].
  split; [unfold V1.derivePublicKey, V1.deriveSecretScalar; rewrite Hk; reflexivity|].
  split; [reflexivity|].
  split; [exact (signMessage_unfold L k m kb mz Hk Hm)|].
  exact (verifySignature_honest L G HC m kb mz Hm).
Qed.

(** X15. No second response: when the library's [n * Base8] are distinct for
    distinct [n] in [[0, subOrder)], two signatures with the same [R8] that
    [verifySignature] accepts for the same message and public key, and whose
    [S] are not negative, have the same [S]. *)
Theorem verifySignature_S_unique (L : Lib) (m : BigNumberish) (R pk : Point BigNumber)
    (S1 S2 : BigNumber) :
  (forall a b, 0 <= a < subOrder L -> 0 <= b < subOrder L ->
     mulPointEscalar L (Base8 L) a = mulPointEscalar L (Base8 L) b -> a = b) ->
  0 <= valueOf S1 -> 0 <= valueOf S2 ->
  V2.verifySignature L m {| R8 := R; S := S1 |} pk = Ok true ->
  V2.verifySignature L m {| R8 := R; S := S2 |} pk = Ok true ->
  valueOf S1 = valueOf S2.
Proof.
  intros Hinj H1 H2 Hv1 Hv2.
  rewrite verifySignature_unfold in Hv1, Hv2.
  destruct (rejects L {| R8 := R; S := S1 |} pk) eqn:Hr1; [discriminate Hv1|].
  destruct (rejects L {| R8 := R; S := S2 |} pk) eqn:Hr2; [discriminate Hv2|].
  destruct (checkMessage L m) as [mz|]; [|discriminate Hv1].
  apply Outcome_Ok_inj in Hv1, Hv2.
  unfold rejects in Hr1, Hr2. cbn [R8 S] in Hr1, Hr2.
  apply orb_false_iff in Hr1 as [_ Hr1]. apply orb_false_iff in Hr2 as [_ Hr2].
  apply Z.leb_gt in Hr1, Hr2.
  unfold verdict in Hv1, Hv2. cbn [R8 S] in Hv1, Hv2.
  apply andb_true_iff in Hv1 as [Hx1 Hy1]. apply andb_true_iff in Hv2 as [Hx2 Hy2].
  apply Z.eqb_eq in Hx1, Hy1, Hx2, Hy2.
  apply Hinj; [lia | lia |].
  apply injective_projections; congruence.
Qed.

Lemma toy_Base8_multiples_distinct (a b : Z) :
  0 <= a < subOrder Toy.lib -> 0 <= b < subOrder Toy.lib ->
  mulPointEscalar Toy.lib (Base8 Toy.lib) a = mulPointEscalar Toy.lib (Base8 Toy.lib) b ->
  a = b.
Proof.
  change (subOrder Toy.lib) with 5. intros Ha Hb.
  assert (a = 0 \/ a = 1 \/ a = 2 \/ a = 3 \/ a = 4) as Ea by lia.
  assert (b = 0 \/ b = 1 \/ b = 2 \/ b = 3 \/ b = 4) as Eb by lia.
  destruct Ea as [->|[->|[->|[->| ->]]]]; destruct Eb as [->|[->|[->|[->| ->]]]];
    vm_compute; intros H; first [reflexivity | discriminate H].
Qed.

Lemma verifySignature_S_unique_witness :
  valueOf (BNstring "0b10") = valueOf (BNstring "2").
Proof.
  apply (verifySignature_S_unique Toy.lib Toy.message (BNbigint 34, BNstring " 0x20 ")
           (point_map BNstring Toy.publicKey) (BNstring "0b10") (BNstring "2")).
  - exact toy_Base8_multiples_distinct.
  - vm_compute; discriminate.
  - vm_compute; discriminate.
  - vm_compute; reflexivity.
  - vm_compute; reflexivity.
Defined.

(** ** Runs of the further properties on the small library *)

Example toy_instance :
  EdDSAPoseidon.constructor Toy.lib Toy.key = Ok ToyInputs.instance /\
  EdDSAPoseidon.constructor Toy.lib ToyInputs.bad_key = Throw (JsError "Invalid private key") /\
  V2.signMessage Toy.lib ToyInputs.bad_key Toy.bad_message = Throw (JsError "Invalid private key") /\
  V2.unpackPublicKey Toy.lib ToyInputs.no_point = Throw (JsError "Invalid public key") /\
  V2.unpackPublicKey Toy.lib ToyInputs.no_number = Throw (JsTypeError "Invalid public key type") /\
  V2.verifySignature Toy.lib Toy.message ToyInputs.signature_hex ToyInputs.publicKey_hex = Ok true.
Proof. repeat split; vm_compute; reflexivity. Qed.

Lemma signMessage_output_passes_guard_witness :
  V2.signMessage Toy.lib Toy.key Toy.message = Ok Toy.signature /\
  isSignature (signature_map BNstring Toy.signature) = true /\
  inCurve Toy.lib (pointValue (point_map BNstring (R8 Toy.signature))) = true /\
  (subOrder Toy.lib <=? valueOf (BNstring (S Toy.signature))) = false.
Proof.
  split; [vm_compute; reflexivity|].
  apply (signMessage_output_passes_guard Toy.lib Toy.valid toy_contract Toy.key Toy.message).
  vm_compute; reflexivity.
Defined.

Lemma signMessage_response_from_secret_scalar_witness :
  exists z,
    V2.deriveSecretScalar Toy.lib Toy.key = Ok (toString z) /\
    let t := V2.signTrace Toy.lib Toy.key_bytes 2 in
    t_A t = mulPointEscalar Toy.lib (Base8 Toy.lib) z /\
    t_S t = (t_r t + t_hm t * (8 * z)) mod subOrder Toy.lib.
Proof.
  exact (signMessage_response_from_secret_scalar Toy.lib Toy.key Toy.key_bytes 2
           eq_refl eq_refl).
Defined.

Lemma constructor_raises_iff_key_rejected_witness :
  EdDSAPoseidon.constructor Toy.lib ToyInputs.bad_key = Throw (JsError "Invalid private key").
Proof.
  apply (constructor_raises_iff_key_rejected Toy.lib Toy.valid toy_contract).
  reflexivity.
Defined.

Lemma constructor_fields_witness :
  EdDSAPoseidon.privateKey ToyInputs.instance = Toy.key /\
  V2.deriveSecretScalar Toy.lib Toy.key = Ok (EdDSAPoseidon.secretScalar ToyInputs.instance) /\
  V2.derivePublicKey Toy.lib Toy.key =
    Ok (point_map toString (pointValue (EdDSAPoseidon.publicKey ToyInputs.instance))) /\
  EdDSAPoseidon.publicKey ToyInputs.instance =
    point_map BNstring
      (point_map toString
         (mulPointEscalar Toy.lib (Base8 Toy.lib)
            (valueOf (BNstring (EdDSAPoseidon.secretScalar ToyInputs.instance))))).
Proof.
  apply (constructor_fields Toy.lib Toy.key). vm_compute; reflexivity.
Defined.

Lemma constructor_packed_key_unpacks_witness :
  exists Q,
    V2.unpackPublicKey Toy.lib (BNstring (EdDSAPoseidon.packedPublicKey ToyInputs.instance))
      = Ok Q /\
    point_map BNstring Q = EdDSAPoseidon.publicKey ToyInputs.instance.
Proof.
  apply (constructor_packed_key_unpacks Toy.lib Toy.valid toy_contract Toy.key).
  vm_compute; reflexivity.
Defined.

Lemma instance_sign_then_verify_witness :
  exists sig,
    EdDSAPoseidon.signMessage Toy.lib ToyInputs.instance Toy.message = Ok sig /\
    EdDSAPoseidon.verifySignature Toy.lib ToyInputs.instance Toy.message
      (signature_map BNstring sig) = Ok true.
Proof.
  apply (instance_sign_then_verify Toy.lib Toy.valid toy_contract Toy.key Toy.message 2).
  - vm_compute; reflexivity.
  - reflexivity.
Defined.

Lemma verifySignature_true_only_if_witness :
  isPoint ToyInputs.publicKey_hex = true /\ isSignature ToyInputs.signature_hex = true /\
  inCurve Toy.lib (pointValue (R8 ToyInputs.signature_hex)) = true /\
  inCurve Toy.lib (pointValue ToyInputs.publicKey_hex) = true /\
  valueOf (S ToyInputs.signature_hex) < subOrder Toy.lib /\
  exists mz,
    checkMessage Toy.lib Toy.message = Ok mz /\
    let R := pointValue (R8 ToyInputs.signature_hex) in
    let A := pointValue ToyInputs.publicKey_hex in
    let hm := poseidon5 Toy.lib [R.1; R.2; A.1; A.2; mz] in
    mulPointEscalar Toy.lib (Base8 Toy.lib) (valueOf (S ToyInputs.signature_hex)) =
    addPoint Toy.lib R (mulPointEscalar Toy.lib A (8 * hm)).
Proof.
  apply (verifySignature_true_only_if Toy.lib Toy.message).
  left. vm_compute; reflexivity.
Defined.

Lemma verifySignature_encoding_independent_witness :
  V2.verifySignature Toy.lib Toy.message (signature_map BNstring Toy.signature)
    (point_map BNstring Toy.publicKey) =
  V2.verifySignature Toy.lib Toy.message ToyInputs.signature_hex ToyInputs.publicKey_hex.
Proof.
  apply verifySignature_encoding_independent; vm_compute; reflexivity.
Defined.

Lemma packPublicKey_same_iff_same_point_witness :
  V2.packPublicKey Toy.lib (point_map BNstring Toy.publicKey) =
  V2.packPublicKey Toy.lib ToyInputs.publicKey_hex <-> (9, 32) = (9, 32).
Proof.
  apply (packPublicKey_same_iff_same_point Toy.lib Toy.valid toy_contract);
    vm_compute; reflexivity.
Defined.

Lemma unpack_then_pack_witness :
  isPoint (point_map BNstring Toy.publicKey) = true /\
  exists n P,
    BigInt (BNstring "32") = Ok n /\ unpackPoint Toy.lib n = Some P /\
    Toy.publicKey = point_map toString P /\
    (inCurve Toy.lib P = true -> packPoint Toy.lib P = n ->
     V2.packPublicKey Toy.lib (point_map BNstring Toy.publicKey) = Ok (toString n)).
Proof.
  apply (unpack_then_pack Toy.lib (BNstring "32") Toy.publicKey).
  vm_compute; reflexivity.
Defined.

Lemma older_sign_then_verify_witness :
  exists s sig pk,
    V1.deriveSecretScalar Toy.lib Toy.key = Ok s /\
    V1.derivePublicKey Toy.lib Toy.key = Ok pk /\
    pk = point_map toString (mulPointEscalar Toy.lib (Base8 Toy.lib) (Z.shiftr s 3)) /\
    V1.signMessage Toy.lib Toy.key Toy.message = Ok sig /\
    V1.verifySignature Toy.lib Toy.message (signature_map BNstring sig)
      (point_map BNstring pk) = Ok true.
Proof.
  exact (older_sign_then_verify Toy.lib Toy.valid toy_contract Toy.key Toy.message
           Toy.key_bytes 2 eq_refl eq_refl).
Defined.
